(** * The TODO application: model and views

    A shallow embedding of [todo/models.py] and [todo/views.py].

    - A row of the [Todo] table is a record; the table maps primary keys to
      rows.
    - A view is a computation over the [World] (table, primary-key
      sequence, clock, message log) that either returns a [Response] or
      raises.
    - What the framework supplies is kept abstract in [Env]: the ambient
      clock read by [timezone.now()] and the parser behind
      [DateTimeField]. *)

From Stdlib Require Import ZArith Lia DecimalString DecimalPos DecimalN.
From stdpp Require Import base option list strings gmap fin_maps sorting.

(** ** Environment *)

(** [clock n] is the value of the [n]-th reading of [timezone.now()];
    [parse_datetime] is the text-to-timestamp conversion of the date-time
    field, [None] when the text has no valid format. *)
Class Env := {
  clock : nat → Z;
  parse_datetime : string → option Z;
}.

(** ** models.py *)

Module Models.

Definition User := Z.

Record Todo := mkTodo {
  title : string;
  description : string;
  status : string;
  priority : string;
  due_date : option Z;
  created_at : Z;
  updated_at : Z;
  completed_at : option Z;
  owner : User;
}.

Definition STATUS_CHOICES : list string := ["pending"; "in_progress"; "completed"].
Definition PRIORITY_CHOICES : list string := ["low"; "medium"; "high"].

Definition set_title (v : string) (t : Todo) : Todo :=
  mkTodo v (description t) (status t) (priority t) (due_date t)
         (created_at t) (updated_at t) (completed_at t) (owner t).
Definition set_description (v : string) (t : Todo) : Todo :=
  mkTodo (title t) v (status t) (priority t) (due_date t)
         (created_at t) (updated_at t) (completed_at t) (owner t).
Definition set_status (v : string) (t : Todo) : Todo :=
  mkTodo (title t) (description t) v (priority t) (due_date t)
         (created_at t) (updated_at t) (completed_at t) (owner t).
Definition set_priority (v : string) (t : Todo) : Todo :=
  mkTodo (title t) (description t) (status t) v (due_date t)
         (created_at t) (updated_at t) (completed_at t) (owner t).
Definition set_due_date (v : option Z) (t : Todo) : Todo :=
  mkTodo (title t) (description t) (status t) (priority t) v
         (created_at t) (updated_at t) (completed_at t) (owner t).
Definition set_updated_at (v : Z) (t : Todo) : Todo :=
  mkTodo (title t) (description t) (status t) (priority t) (due_date t)
         (created_at t) v (completed_at t) (owner t).
Definition set_completed_at (v : option Z) (t : Todo) : Todo :=
  mkTodo (title t) (description t) (status t) (priority t) (due_date t)
         (created_at t) (updated_at t) v (owner t).

#[global] Instance Todo_eq_dec : EqDecision Todo.
Proof. solve_decision. Defined.

End Models.
Export Models.

(** ** models.py: how a row prints *)

(** The labels that [STATUS_CHOICES] pairs with the statuses. *)
Definition STATUS_LABELS : list (string * string) :=
  [("pending", "Pending"); ("in_progress", "In Progress");
   ("completed", "Completed")].

(** [get_status_display]: the label of the status, and the status itself
    when it has no label. *)
Definition get_status_display (self : Todo) : string :=
  default (status self)
          ((list_to_map STATUS_LABELS : gmap string string) !! status self).

(** [Todo.__str__] *)
Definition str (self : Todo) : string :=
  title self +:+ " (" +:+ get_status_display self +:+ ")".

(** ** The world a request runs in *)

Inductive Level := SUCCESS | ERROR.

#[global] Instance Level_eq_dec : EqDecision Level.
Proof. solve_decision. Defined.

Record World := mkWorld {
  table : gmap Z Todo;          (* the Todo table, by primary key *)
  next_pk : Z;                  (* the AUTOINCREMENT sequence *)
  ticks : nat;                  (* how often the clock has been read *)
  flash : list (Level * string) (* messages queued for the user, oldest first *)
}.

Definition set_table (m : gmap Z Todo) (w : World) : World :=
  mkWorld m (next_pk w) (ticks w) (flash w).

Definition empty_world : World := mkWorld ∅ 1 0 [].

(** Exceptions that leave a view: [Http404] from [get_object_or_404], and
    the error the date-time field raises for text it cannot parse. *)
Inductive Exn :=
| Http404
| InvalidDateTime (raw : string).

#[global] Instance Exn_eq_dec : EqDecision Exn.
Proof. solve_decision. Defined.

(** A computation returns a value or raises; either way it leaves a
    world behind. *)
Inductive Outcome (A : Type) :=
| Return (a : A)
| Raise (e : Exn).
Arguments Return {A} a.
Arguments Raise {A} e.

Definition M (A : Type) : Type := World → Outcome A * World.

#[global] Instance M_ret : MRet M := λ A a w, (Return a, w).
#[global] Instance M_bind : MBind M := λ A B f c w,
  match c w with
  | (Return a, w') => f a w'
  | (Raise e, w') => (Raise e, w')
  end.

Definition raise {A} (e : Exn) : M A := λ w, (Raise e, w).
Definition get_world : M World := λ w, (Return w, w).
Definition put_world (w' : World) : M unit := λ _, (Return tt, w').

Definition result {A} (x : Outcome A * World) : Outcome A := x.1.
Definition world_after {A} (x : Outcome A * World) : World := x.2.

(** ** Framework primitives *)

(** A query set is the selected rows. *)
Abbreviation QuerySet := (list (Z * Todo)).

Section Framework.
Context `{Env}.

(** [timezone.now()]: one more reading of the clock. *)
Definition timezone_now : M Z := λ w,
  (Return (clock (ticks w)),
   mkWorld (table w) (next_pk w) (S (ticks w)) (flash w)).

(** [messages.success] and [messages.error]. *)
Definition messages_add (lvl : Level) (text : string) : M unit := λ w,
  (Return tt, mkWorld (table w) (next_pk w) (ticks w) (flash w ++ [(lvl, text)])).
Definition messages_success := messages_add SUCCESS.
Definition messages_error := messages_add ERROR.

(** Truth value of what [QueryDict.get] returns: [None] and the empty
    text are false. *)
Definition truthy (v : option string) : bool :=
  match v with
  | Some s => bool_decide (s ≠ "")
  | None => false
  end.

(** The date-time field converts submitted text when the row is written
    and rejects text it cannot parse. *)
Definition to_python (v : option string) : M (option Z) :=
  match v with
  | None => mret None
  | Some raw =>
      match parse_datetime raw with
      | Some d => mret (Some d)
      | None => raise (InvalidDateTime raw)
      end
  end.

(** The model's [Meta.ordering], [-created_at]: a row comes before every
    row that was not created later. *)
Definition newer_first (r1 r2 : Z * Todo) : Prop :=
  (created_at r2.2 ≤ created_at r1.2)%Z.

#[global] Instance newer_first_dec r1 r2 : Decision (newer_first r1 r2).
Proof. unfold newer_first. apply _. Defined.

(** [Todo.objects.filter(...)], [.filter(...)] and [.count()] on a query
    set; iterating a query set yields its rows in the model's ordering
    (rows created at the same time in an order the database picks, here
    the one of the sort). *)
Definition objects_filter (P : Todo → bool) : M QuerySet := λ w,
  (Return (filter (λ r, P r.2 = true) (map_to_list (table w))), w).
Definition qs_filter (P : Todo → bool) (qs : QuerySet) : QuerySet :=
  filter (λ r, P r.2 = true) qs.
Definition qs_count (qs : QuerySet) : nat := length qs.
Definition qs_iter (qs : QuerySet) : list (Z * Todo) :=
  merge_sort newer_first qs.

(** [get_object_or_404(Todo, pk=pk, owner=user)] *)
Definition get_object_or_404 (pk : Z) (user : User) : M Todo := λ w,
  match table w !! pk with
  | Some t => if decide (owner t = user) then (Return t, w) else (Raise Http404, w)
  | None => (Raise Http404, w)
  end.

(** [Todo.objects.create(...)]: [status] and [completed_at] take their
    defaults, [created_at] and [updated_at] are stamped by their fields,
    the key comes from the sequence. Writing a row runs no [full_clean]:
    neither [choices] nor [max_length] is checked. *)
Definition objects_create (title description priority : string)
    (due_date : option string) (owner : User) : M (Z * Todo) :=
  due ← to_python due_date;
  created ← timezone_now;
  updated ← timezone_now;
  w ← get_world;
  let pk := next_pk w in
  let todo := mkTodo title description "pending" priority due
                     created updated None owner in
  put_world (mkWorld (<[pk := todo]> (table w)) (pk + 1)%Z (ticks w) (flash w));;
  mret (pk, todo).

(** [self.save()] on a loaded row: [updated_at] is [auto_now]. *)
Definition save (pk : Z) (self : Todo) : M Todo :=
  now ← timezone_now;
  let self' := set_updated_at now self in
  w ← get_world;
  put_world (set_table (<[pk := self']> (table w)) w);;
  mret self'.

(** [self.save()] on a loaded row whose due date was just assigned from
    the form: [updated_at] is stamped first, then the row is written, and
    it is in writing that the field converts the assigned text, or raises
    for text it cannot parse. *)
Definition save_assigned (pk : Z) (self : Todo) (due_date : option string)
    : M Todo :=
  now ← timezone_now;
  due ← to_python due_date;
  let self' := set_updated_at now (set_due_date due self) in
  w ← get_world;
  put_world (set_table (<[pk := self']> (table w)) w);;
  mret self'.

(** [self.delete()] *)
Definition delete_row (pk : Z) : M unit := λ w,
  (Return tt, set_table (delete pk (table w)) w).

(** [Todo.mark_as_completed] *)
Definition mark_as_completed (pk : Z) (self : Todo) : M Todo :=
  now ← timezone_now;
  save pk (set_completed_at (Some now) (set_status "completed" self)).

(** [Todo.is_overdue] *)
Definition is_overdue (self : Todo) : M bool :=
  match due_date self with
  | Some due =>
      if bool_decide (status self ≠ "completed")
      then now ← timezone_now; mret (bool_decide (due < now)%Z)
      else mret false
  | None => mret false
  end.

End Framework.

(** ** views.py *)

Module Views.

(** The views only ask whether the method is POST; [GET_] stands for
    every other method. *)
Inductive Method := GET_ | POST_.

#[global] Instance Method_eq_dec : EqDecision Method.
Proof. solve_decision. Defined.

(** What a view reads from the request. [user] is [None] for a visitor who
    is not logged in; [GET] and [POST] are the query and form data. *)
Record Request := mkRequest {
  method : Method;
  user : option User;
  GET : gmap string string;
  POST : gmap string string;
}.

Record Stats := mkStats {
  total : nat;
  pending : nat;
  in_progress : nat;
  completed : nat;
  overdue : nat;
  high_priority : nat;
}.

Inductive Context :=
| ListContext (todos : list (Z * Todo)) (status_filter priority_filter : option string)
| TodoContext (pk : Z) (todo : Todo)
| FormContext (todo : option (Z * Todo)) (action : string)
| StatsContext (stats : Stats).

Inductive Response :=
| Render (template : string) (context : Context)
| Redirect (to : string) (pk : option Z).

Definition quote : string := String (Ascii.ascii_of_nat 34) "".

Section Views.
Context `{Env}.

(** [@login_required]: a visitor without a session is sent to the login
    page and the view does not run. *)
Definition login_required {A} (view : User → Request → A → M Response)
    (request : Request) (a : A) : M Response :=
  match user request with
  | Some u => view u request a
  | None => mret (Redirect "login" None)
  end.

Definition has_status (s : string) (t : Todo) : bool := bool_decide (status t = s).
Definition has_priority (s : string) (t : Todo) : bool := bool_decide (priority t = s).
Definition has_owner (u : User) (t : Todo) : bool := bool_decide (owner t = u).

Definition todo_list_view (u : User) (request : Request) (_ : unit) : M Response :=
  todos ← objects_filter (has_owner u);
  let status_filter := GET request !! "status" in
  let todos := if truthy status_filter
               then qs_filter (has_status (default "" status_filter)) todos
               else todos in
  let priority_filter := GET request !! "priority" in
  let todos := if truthy priority_filter
               then qs_filter (has_priority (default "" priority_filter)) todos
               else todos in
  mret (Render "todo/todo_list.html"
          (ListContext (qs_iter todos) status_filter priority_filter)).

Definition todo_detail_view (u : User) (request : Request) (pk : Z) : M Response :=
  todo ← get_object_or_404 pk u;
  mret (Render "todo/todo_detail.html" (TodoContext pk todo)).

Definition todo_create_view (u : User) (request : Request) (_ : unit) : M Response :=
  let form := Render "todo/todo_form.html" (FormContext None "Create") in
  match method request with
  | POST_ =>
      let title := POST request !! "title" in
      let description := default "" (POST request !! "description") in
      let priority := default "medium" (POST request !! "priority") in
      let due_date := POST request !! "due_date" in
      if truthy title then
        todo ← objects_create (default "" title) description priority
                 (if truthy due_date then due_date else None) u;
        messages_success
          ("TODO " +:+ quote +:+ Models.title todo.2 +:+ quote
           +:+ " created successfully!");;
        mret (Redirect "todo_list" None)
      else
        messages_error "Title is required!";;
        mret form
  | GET_ => mret form
  end.

(** The submitted due date is assigned as text; [save] stamps
    [updated_at] and then converts the text as it writes the row. *)
Definition todo_update_view (u : User) (request : Request) (pk : Z) : M Response :=
  todo ← get_object_or_404 pk u;
  match method request with
  | POST_ =>
      let todo := set_title (default (title todo) (POST request !! "title")) todo in
      let todo := set_description
                    (default (description todo) (POST request !! "description")) todo in
      let todo := set_status (default (status todo) (POST request !! "status")) todo in
      let todo := set_priority
                    (default (priority todo) (POST request !! "priority")) todo in
      let due_date := POST request !! "due_date" in
      todo ← save_assigned pk todo (if truthy due_date then due_date else None);
      messages_success
        ("TODO " +:+ quote +:+ title todo +:+ quote +:+ " updated successfully!");;
      mret (Redirect "todo_detail" (Some pk))
  | GET_ =>
      mret (Render "todo/todo_form.html" (FormContext (Some (pk, todo)) "Update"))
  end.

Definition todo_delete_view (u : User) (request : Request) (pk : Z) : M Response :=
  todo ← get_object_or_404 pk u;
  match method request with
  | POST_ =>
      let title := title todo in
      delete_row pk;;
      messages_success
        ("TODO " +:+ quote +:+ title +:+ quote +:+ " deleted successfully!");;
      mret (Redirect "todo_list" None)
  | GET_ =>
      mret (Render "todo/todo_confirm_delete.html" (TodoContext pk todo))
  end.

Definition todo_complete_view (u : User) (request : Request) (pk : Z) : M Response :=
  todo ← get_object_or_404 pk u;
  todo ← mark_as_completed pk todo;
  messages_success
    ("TODO " +:+ quote +:+ title todo +:+ quote +:+ " marked as completed!");;
  mret (Redirect "todo_list" None).

(** [sum(1 for todo in todos if todo.is_overdue())] *)
Fixpoint count_overdue (todos : list (Z * Todo)) : M nat :=
  match todos with
  | [] => mret 0
  | r :: rest =>
      b ← is_overdue r.2;
      n ← count_overdue rest;
      mret (if b : bool then S n else n)
  end.

Definition todo_stats_view (u : User) (request : Request) (_ : unit) : M Response :=
  todos ← objects_filter (has_owner u);
  let n_total := qs_count todos in
  let n_pending := qs_count (qs_filter (has_status "pending") todos) in
  let n_in_progress := qs_count (qs_filter (has_status "in_progress") todos) in
  let n_completed := qs_count (qs_filter (has_status "completed") todos) in
  n_overdue ← count_overdue (qs_iter todos);
  let n_high := qs_count (qs_filter (has_priority "high") todos) in
  let stats := {|
    total := n_total;
    pending := n_pending;
    in_progress := n_in_progress;
    completed := n_completed;
    overdue := n_overdue;
    high_priority := n_high;
  |} in
  mret (Render "todo/todo_stats.html" (StatsContext stats)).

Definition todo_list (request : Request) : M Response :=
  login_required todo_list_view request tt.
Definition todo_detail (request : Request) (pk : Z) : M Response :=
  login_required todo_detail_view request pk.
Definition todo_create (request : Request) : M Response :=
  login_required todo_create_view request tt.
Definition todo_update (request : Request) (pk : Z) : M Response :=
  login_required todo_update_view request pk.
Definition todo_delete (request : Request) (pk : Z) : M Response :=
  login_required todo_delete_view request pk.
Definition todo_complete (request : Request) (pk : Z) : M Response :=
  login_required todo_complete_view request pk.
Definition todo_stats (request : Request) : M Response :=
  login_required todo_stats_view request tt.

End Views.
End Views.
Export Views.

(** ** Sequences of requests *)

Inductive Call :=
| CallList (request : Request)
| CallDetail (request : Request) (pk : Z)
| CallCreate (request : Request)
| CallUpdate (request : Request) (pk : Z)
| CallDelete (request : Request) (pk : Z)
| CallComplete (request : Request) (pk : Z)
| CallStats (request : Request).

Section Server.
Context `{Env}.

Definition serve (c : Call) : M Response :=
  match c with
  | CallList r => todo_list r
  | CallDetail r pk => todo_detail r pk
  | CallCreate r => todo_create r
  | CallUpdate r pk => todo_update r pk
  | CallDelete r pk => todo_delete r pk
  | CallComplete r pk => todo_complete r pk
  | CallStats r => todo_stats r
  end.

(** The world after a list of calls, served one after the other. What a
    call wrote before raising stays written. *)
Definition serve_all (calls : list Call) (w : World) : World :=
  foldl (λ w c, world_after (serve c w)) w calls.

(** The store states the application can be in: those a list of calls
    leads to from the empty store. *)
Definition reachable (w : World) : Prop :=
  ∃ calls, w = serve_all calls empty_world.

(** [n] calls of the completion view on the same row. *)
Definition complete_times (requests : list Request) (pk : Z) (w : World) : World :=
  serve_all ((λ r, CallComplete r pk) <$> requests) w.

End Server.

(** ** urls.py *)

Module Urls.

(** A piece of a route: literal text, or the converter [<int:pk>]. *)
Inductive Segment :=
| Lit (text : string)
| IntPk.

Inductive View :=
| ViewList | ViewDetail | ViewCreate | ViewUpdate | ViewDelete | ViewComplete
| ViewStats.

#[global] Instance View_eq_dec : EqDecision View.
Proof. solve_decision. Defined.

Record UrlPattern := path {
  route : list Segment;
  view : View;
  name : string;
}.

Definition urlpatterns : list UrlPattern := [
  path [] ViewList "todo_list";
  path [Lit "todo/"; IntPk; Lit "/"] ViewDetail "todo_detail";
  path [Lit "create/"] ViewCreate "todo_create";
  path [Lit "todo/"; IntPk; Lit "/update/"] ViewUpdate "todo_update";
  path [Lit "todo/"; IntPk; Lit "/delete/"] ViewDelete "todo_delete";
  path [Lit "todo/"; IntPk; Lit "/complete/"] ViewComplete "todo_complete";
  path [Lit "stats/"] ViewStats "todo_stats"
].

(** The characters [0] to [9]. *)
Definition is_digit (c : Ascii.ascii) : bool :=
  match uint_of_char c (Some Decimal.Nil) with
  | Some _ => true
  | None => false
  end.

(** The longest run of digits a text starts with, and what follows it. *)
Fixpoint span_digits (s : string) : string * string :=
  match s with
  | EmptyString => (EmptyString, EmptyString)
  | String c s' =>
      if is_digit c
      then (String c (span_digits s').1, (span_digits s').2)
      else (EmptyString, s)
  end.

Fixpoint strip_prefix (p s : string) : option string :=
  match p, s with
  | EmptyString, _ => Some s
  | String a p', String b s' =>
      if decide (a = b) then strip_prefix p' s' else None
  | String _ _, EmptyString => None
  end.

(** [int(text)] and [str(n)] of the converter. *)
Definition int_of_digits (ds : string) : option Z :=
  (λ d, Z.of_N (N.of_uint d)) <$> NilEmpty.uint_of_string ds.
Definition str_of_int (n : Z) : string :=
  NilEmpty.string_of_uint (N.to_uint (Z.to_N n)).

(** A route matches a whole path; the converter takes one or more digits,
    as many as there are (every text that follows a converter in
    [urlpatterns] starts with a slash, so taking fewer never helps). The
    result is the captured keys. *)
Fixpoint match_route (r : list Segment) (p : string) : option (list Z) :=
  match r with
  | [] => if decide (p = "") then Some [] else None
  | Lit text :: r' =>
      match strip_prefix text p with
      | Some p' => match_route r' p'
      | None => None
      end
  | IntPk :: r' =>
      let ds := (span_digits p).1 in
      if decide (ds = "") then None
      else match int_of_digits ds, match_route r' (span_digits p).2 with
           | Some pk, Some args => Some (pk :: args)
           | _, _ => None
           end
  end.

(** The first pattern that matches wins. *)
Fixpoint first_match (patterns : list UrlPattern) (p : string)
    : option (View * list Z) :=
  match patterns with
  | [] => None
  | pat :: rest =>
      match match_route (route pat) p with
      | Some args => Some (view pat, args)
      | None => first_match rest p
      end
  end.

(** Resolving a path, relative to where the project mounts the
    application. *)
Definition resolve (p : string) : option (View * list Z) :=
  first_match urlpatterns p.

(** Building the path of a route from its arguments; a negative key has
    no path. *)
Fixpoint reverse_route (r : list Segment) (args : list Z) : option string :=
  match r, args with
  | [], [] => Some ""
  | Lit text :: r', _ => (λ p, text +:+ p) <$> reverse_route r' args
  | IntPk :: r', pk :: args' =>
      if decide (0 ≤ pk)%Z
      then (λ p, str_of_int pk +:+ p) <$> reverse_route r' args'
      else None
  | _, _ => None
  end.

(** [reverse(name, args=...)] *)
Definition reverse (n : string) (args : list Z) : option string :=
  match filter (λ pat, name pat = n) urlpatterns with
  | pat :: _ => reverse_route (route pat) args
  | [] => None
  end.

Section Dispatch.
Context `{Env}.

(** A request for a path: the resolved view is called with the captured
    key; a path no pattern matches is not found. *)
Definition dispatch (request : Request) (p : string) : M Response :=
  match resolve p with
  | Some (ViewList, []) => todo_list request
  | Some (ViewDetail, [pk]) => todo_detail request pk
  | Some (ViewCreate, []) => todo_create request
  | Some (ViewUpdate, [pk]) => todo_update request pk
  | Some (ViewDelete, [pk]) => todo_delete request pk
  | Some (ViewComplete, [pk]) => todo_complete request pk
  | Some (ViewStats, []) => todo_stats request
  | _ => raise Http404
  end.

End Dispatch.
End Urls.

(** ** A test double for the framework *)

Module Demo.

(** The clock starts at 1000 and advances by one per reading; the parser
    knows two texts, one before and one after every reading used below. *)
Definition demo_parse (s : string) : option Z :=
  if decide (s = "2000-01-01 00:00") then Some 500%Z
  else if decide (s = "2030-01-01 00:00") then Some 2000%Z
  else None.

#[global] Instance demo_env : Env := {|
  clock n := (1000 + Z.of_nat n)%Z;
  parse_datetime := demo_parse;
|}.

Definition alice : User := 1%Z.
Definition bob : User := 2%Z.

Definition get_as (u : User) (query : list (string * string)) : Request :=
  mkRequest GET_ (Some u) (list_to_map query) ∅.
Definition post_as (u : User) (form : list (string * string)) : Request :=
  mkRequest POST_ (Some u) ∅ (list_to_map form).

(** Alice has created one task. *)
Definition one_task : World :=
  serve_all [CallCreate (post_as alice [("title", "Buy milk")])] empty_world.

(** Alice has created two tasks, Bob one. *)
Definition three_tasks : World :=
  serve_all [CallCreate (post_as alice [("title", "Buy milk")]);
             CallCreate (post_as bob [("title", "Call home"); ("priority", "high")]);
             CallCreate (post_as alice [("title", "Pay rent");
                                        ("due_date", "2000-01-01 00:00")])]
            empty_world.

End Demo.

(** ** Three sentences of the specification, word for word

    These follow the specification, not the code; each is compared with
    the code below. *)

Section Worded.

(** "[pending + in_progress + completed == total] always holds", in every
    reachable store state. *)
Definition stats_partition_as_worded : Prop :=
  ∀ (E : Env) (w : World) (request : Request) (u : User) (st : Stats),
    reachable w →
    user request = Some u →
    result (todo_stats request w)
      = Return (Render "todo/todo_stats.html" (StatsContext st)) →
    pending st + in_progress st + completed st = total st.

(** "Returns all tasks owned by [owner], optionally narrowed to an exact
    [status] match and/or exact [priority] match", a filter counting as
    present when the request carries it. *)
Definition list_as_worded : Prop :=
  ∀ (E : Env) (w : World) (request : Request) (u : User),
    user request = Some u →
    ∃ todos sf pf,
      result (todo_list request w)
        = Return (Render "todo/todo_list.html" (ListContext todos sf pf)) ∧
      ∀ pk t,
        (pk, t) ∈ todos ↔
        table w !! pk = Some t ∧ owner t = u ∧
        (∀ s, GET request !! "status" = Some s → status t = s) ∧
        (∀ s, GET request !! "priority" = Some s → priority t = s).

(** "Unparsable values are treated as absent (no date)": the create
    succeeds and the new row has no due date. *)
Definition create_unparsable_as_worded : Prop :=
  ∀ (E : Env) (w : World) (request : Request) (u : User) (raw : string),
    user request = Some u →
    method request = POST_ →
    truthy (POST request !! "title") = true →
    POST request !! "due_date" = Some raw →
    parse_datetime raw = None →
    ∃ t,
      result (todo_create request w) = Return (Redirect "todo_list" None) ∧
      table (world_after (todo_create request w)) !! next_pk w = Some t ∧
      due_date t = None.

(** "If empty/absent, the operation fails with a [ValidationError] and
    creates nothing": the call ends in an error raised to the caller, and
    the table is as before. *)
Definition create_without_title_as_worded : Prop :=
  ∀ (E : Env) (w : World) (request : Request) (u : User),
    user request = Some u →
    method request = POST_ →
    POST request !! "title" = None ∨ POST request !! "title" = Some "" →
    (∃ e, result (todo_create request w) = Raise e) ∧
    table (world_after (todo_create request w)) = table w.

End Worded.

(** A status of the vocabulary. *)
Definition in_vocabulary (t : Todo) : Prop := status t ∈ STATUS_CHOICES.

(** The rows of [u] in the table. *)
Definition owned_by (u : User) (w : World) : list (Z * Todo) :=
  filter (λ r, has_owner u r.2 = true) (map_to_list (table w)).

(** A row is hidden from [u] when it is absent or owned by someone else. *)
Definition hidden_from (u : User) (pk : Z) (w : World) : Prop :=
  table w !! pk = None ∨ ∃ t, table w !! pk = Some t ∧ owner t ≠ u.

(** Who makes a call. *)
Definition call_request (c : Call) : Request :=
  match c with
  | CallList r | CallCreate r | CallStats r => r
  | CallDetail r _ | CallUpdate r _ | CallDelete r _ | CallComplete r _ => r
  end.
Definition caller (c : Call) : option User := user (call_request c).

(** The key a call carries, if any. *)
Definition call_key (c : Call) : option Z :=
  match c with
  | CallList _ | CallCreate _ | CallStats _ => None
  | CallDetail _ pk | CallUpdate _ pk | CallDelete _ pk | CallComplete _ pk => Some pk
  end.

(** Every row sits under a key the sequence has already handed out. *)
Definition keys_issued (w : World) : Prop :=
  (1 ≤ next_pk w)%Z ∧
  ∀ pk, is_Some (table w !! pk) → (1 ≤ pk < next_pk w)%Z.

(** A clock that never runs backwards. *)
Definition clock_monotone `{Env} : Prop :=
  ∀ i j, i ≤ j → (clock i ≤ clock j)%Z.

(** The stamps of a row are clock readings taken in this order: creation,
    then completion if any, then the last write; all of them in the past
    of the world. *)
Definition stamped_in_order `{Env} (w : World) (t : Todo) : Prop :=
  ∃ i j, i ≤ j < ticks w ∧
         created_at t = clock i ∧ updated_at t = clock j ∧
         (completed_at t = None ∨
          ∃ k, i ≤ k ≤ j ∧ completed_at t = Some (clock k)).

(** * Properties *)

(** ** The test double at work *)

Module DemoFacts.
Import Demo.

Example one_task_table :
  table one_task !! 1%Z
  = Some (mkTodo "Buy milk" "" "pending" "medium" None 1000 1001 None alice).
Proof. vm_compute. reflexivity. Qed.

Example three_tasks_third :
  table three_tasks !! 3%Z
  = Some (mkTodo "Pay rent" "" "pending" "medium" (Some 500%Z) 1004 1005 None alice).
Proof. vm_compute. reflexivity. Qed.

Example three_tasks_list :
  result (todo_list (get_as alice []) three_tasks)
  = Return (Render "todo/todo_list.html"
          (ListContext
             [(3%Z, mkTodo "Pay rent" "" "pending" "medium" (Some 500%Z) 1004 1005 None alice);
              (1%Z, mkTodo "Buy milk" "" "pending" "medium" None 1000 1001 None alice)]
             None None)).
Proof. vm_compute. reflexivity. Qed.

Example three_tasks_stats :
  result (todo_stats (get_as alice []) three_tasks)
  = Return (Render "todo/todo_stats.html" (StatsContext (mkStats 2 2 0 0 1 0))).
Proof. vm_compute. reflexivity. Qed.

End DemoFacts.

(** ** Looking a row up for its owner *)

Section Lookup.
Context `{Env}.

Lemma get_object_or_404_found pk u w t :
  table w !! pk = Some t → owner t = u →
  get_object_or_404 pk u w = (Return t, w).
Proof.
  intros Hrow Hown. unfold get_object_or_404. rewrite Hrow.
  destruct (decide (owner t = u)); [reflexivity | contradiction].
Qed.

Lemma get_object_or_404_hidden pk u w :
  hidden_from u pk w → get_object_or_404 pk u w = (Raise Http404, w).
Proof.
  unfold get_object_or_404.
  intros [Hnone | (t & Hrow & Hown)].
  - rewrite Hnone. reflexivity.
  - rewrite Hrow. destruct (decide (owner t = u)); [contradiction | reflexivity].
Qed.

Lemma get_object_or_404_cases pk u w :
  (∃ t, table w !! pk = Some t ∧ owner t = u ∧
        get_object_or_404 pk u w = (Return t, w))
  ∨ (hidden_from u pk w ∧ get_object_or_404 pk u w = (Raise Http404, w)).
Proof.
  destruct (table w !! pk) as [t |] eqn:Hrow.
  - destruct (decide (owner t = u)) as [Hown | Hown].
    + left. exists t. eauto using get_object_or_404_found.
    + right. assert (hidden_from u pk w) by (right; eauto).
      eauto using get_object_or_404_hidden.
  - right. assert (hidden_from u pk w) by (left; done).
    eauto using get_object_or_404_hidden.
Qed.

(** Sequencing after a lookup that fails or succeeds. *)
Lemma bind_lookup_hidden {B} pk u w (k : Todo → M B) :
  hidden_from u pk w →
  (get_object_or_404 pk u ≫= k) w = (Raise Http404, w).
Proof.
  intros Hh. unfold mbind, M_bind.
  rewrite (get_object_or_404_hidden _ _ _ Hh). reflexivity.
Qed.

Lemma bind_lookup_found {B} pk u w t (k : Todo → M B) :
  table w !! pk = Some t → owner t = u →
  (get_object_or_404 pk u ≫= k) w = k t w.
Proof.
  intros Hrow Hown. unfold mbind, M_bind.
  rewrite (get_object_or_404_found _ _ _ _ Hrow Hown). reflexivity.
Qed.

End Lookup.

(** ** [is_overdue] *)

(** C2. [is_overdue] always returns, and returns true exactly when the
    task has a due date, the clock reading is strictly after it, and the
    status is not [completed]; so it returns false for every completed
    task and for every task without a due date. *)
Theorem is_overdue_iff `{Env} (t : Todo) (w : World) :
  ∃ b : bool,
    result (is_overdue t w) = Return b ∧
    (b = true ↔
       ∃ due, due_date t = Some due ∧ (due < clock (ticks w))%Z ∧
              status t ≠ "completed") ∧
    (status t = "completed" → b = false) ∧
    (due_date t = None → b = false).
Proof.
  unfold is_overdue.
  destruct (due_date t) as [due |] eqn:Hdue.
  - destruct (decide (status t = "completed")) as [Hst | Hst].
    + rewrite bool_decide_eq_false_2 by (intros Hne; contradiction).
      exists false. cbn. repeat split; try done.
      intros (d & _ & _ & Hne). contradiction.
    + rewrite bool_decide_eq_true_2 by done.
      exists (bool_decide (due < clock (ticks w))%Z). cbn.
      split; [reflexivity |]. split; [| split; [contradiction | discriminate]].
      rewrite bool_decide_eq_true. split.
      * intros Hlt. exists due. done.
      * intros (d & Hd & Hlt & _). congruence.
  - exists false. cbn. repeat split; try done.
    intros (d & Hd & _). discriminate.
Qed.

(** ** Rows of other users *)

(** C3. When the row is absent, and just as well when it belongs to
    another user, each of the detail, update, delete and complete views
    raises [Http404] and leaves the world as it was: the two cases have
    the same outcome, and the row of the other user is untouched. *)
Theorem hidden_row_is_not_found `{Env} (request : Request) (u : User)
    (pk : Z) (w : World) :
  user request = Some u →
  table w !! pk = None ∨ (∃ t, table w !! pk = Some t ∧ owner t ≠ u) →
  todo_detail request pk w = (Raise Http404, w) ∧
  todo_update request pk w = (Raise Http404, w) ∧
  todo_delete request pk w = (Raise Http404, w) ∧
  todo_complete request pk w = (Raise Http404, w).
Proof.
  intros Hu Hh.
  unfold todo_detail, todo_update, todo_delete, todo_complete, login_required.
  rewrite Hu.
  unfold todo_detail_view, todo_update_view, todo_delete_view, todo_complete_view.
  repeat split; apply bind_lookup_hidden; exact Hh.
Qed.

Lemma hidden_row_is_not_found_witness :
  let request := Demo.get_as Demo.alice [] in
  todo_detail request 2 Demo.three_tasks = (Raise Http404, Demo.three_tasks) ∧
  todo_update request 2 Demo.three_tasks = (Raise Http404, Demo.three_tasks) ∧
  todo_delete request 2 Demo.three_tasks = (Raise Http404, Demo.three_tasks) ∧
  todo_complete request 2 Demo.three_tasks = (Raise Http404, Demo.three_tasks).
Proof.
  apply (hidden_row_is_not_found (Demo.get_as Demo.alice []) Demo.alice 2
           Demo.three_tasks).
  - reflexivity.
  - right. eexists. split; [vm_compute; reflexivity | vm_compute; discriminate].
Defined.

(** ** Completing a task *)

Section Complete.
Context `{Env}.

(** What the completion view does to a row its user owns: two readings of
    the clock, the first for [completed_at], the second for [updated_at]. *)
Lemma todo_complete_run request u pk w t :
  user request = Some u → table w !! pk = Some t → owner t = u →
  todo_complete request pk w
  = (Return (Redirect "todo_list" None),
     mkWorld
       (<[pk := set_updated_at (clock (S (ticks w)))
                  (set_completed_at (Some (clock (ticks w)))
                     (set_status "completed" t))]> (table w))
       (next_pk w) (S (S (ticks w)))
       (flash w ++ [(SUCCESS,
                     "TODO " +:+ quote +:+ title t +:+ quote
                     +:+ " marked as completed!")])).
Proof.
  intros Hu Hrow Hown.
  unfold todo_complete, login_required. rewrite Hu.
  unfold todo_complete_view.
  rewrite (bind_lookup_found _ _ _ _ _ Hrow Hown).
  reflexivity.
Qed.

(** A call by a visitor, or for a hidden row, changes nothing. *)
Lemma todo_complete_noop request pk w :
  user request = None ∨ (∃ u, user request = Some u ∧ hidden_from u pk w) →
  world_after (todo_complete request pk w) = w.
Proof.
  unfold todo_complete, login_required.
  intros [Hu | (u & Hu & Hh)]; rewrite Hu; [reflexivity |].
  unfold todo_complete_view. rewrite (bind_lookup_hidden _ _ _ _ Hh).
  reflexivity.
Qed.

Lemma complete_times_cons request requests pk w :
  complete_times (request :: requests) pk w
  = complete_times requests pk (world_after (todo_complete request pk w)).
Proof. reflexivity. Qed.

(** Earlier completions keep the row in place and with its owner, and
    each takes two readings of the clock. *)
Lemma complete_times_keeps requests : ∀ u pk w t,
  Forall (λ r, user r = Some u) requests →
  table w !! pk = Some t → owner t = u →
  (∃ t', table (complete_times requests pk w) !! pk = Some t' ∧ owner t' = u) ∧
  ticks (complete_times requests pk w) = ticks w + 2 * length requests.
Proof.
  induction requests as [| r rs IH]; intros u pk w t Hall Hrow Hown.
  - cbn. split; [eauto | lia].
  - apply Forall_cons in Hall as [Hr Hrs].
    rewrite complete_times_cons.
    rewrite (todo_complete_run _ _ _ _ _ Hr Hrow Hown). cbn [world_after snd].
    set (w1 := mkWorld _ _ _ _).
    edestruct (IH u pk w1) as [Hkeep Hticks];
      [exact Hrs | subst w1; cbn; apply lookup_insert_eq | exact Hown |].
    split; [exact Hkeep |].
    rewrite Hticks. subst w1. cbn. lia.
Qed.

End Complete.

(** C7. After any number of earlier completions of a task by its owner, a
    further completion succeeds, leaves the status [completed], and stamps
    [completed_at] and [updated_at] with the clock readings taken during
    that very call, the next two readings after those the earlier calls
    took. *)
Theorem complete_restamps `{Env} (requests : list Request) (request : Request)
    (u : User) (pk : Z) (w : World) (t : Todo) :
  Forall (λ r, user r = Some u) requests →
  user request = Some u →
  table w !! pk = Some t →
  owner t = u →
  let before := complete_times requests pk w in
  let after := world_after (todo_complete request pk before) in
  result (todo_complete request pk before) = Return (Redirect "todo_list" None) ∧
  ticks before = ticks w + 2 * length requests ∧
  ∃ t', table after !! pk = Some t' ∧
        status t' = "completed" ∧
        completed_at t' = Some (clock (ticks before)) ∧
        updated_at t' = clock (S (ticks before)).
Proof.
  intros Hall Hu Hrow Hown before after.
  destruct (complete_times_keeps requests u pk w t Hall Hrow Hown)
    as [(t0 & Hrow0 & Hown0) Hticks].
  fold before in Hrow0, Hticks.
  subst after.
  rewrite (todo_complete_run _ _ _ _ _ Hu Hrow0 Hown0).
  cbn [result world_after fst snd table].
  split; [reflexivity |]. split; [exact Hticks |].
  eexists. split; [apply lookup_insert_eq |].
  cbn. auto.
Qed.

Lemma complete_restamps_witness :
  let request := Demo.get_as Demo.alice [] in
  let before := complete_times [request; request] 1 Demo.one_task in
  let after := world_after (todo_complete request 1 before) in
  result (todo_complete request 1 before) = Return (Redirect "todo_list" None) ∧
  ticks before = ticks Demo.one_task + 2 * 2 ∧
  ∃ t', table after !! 1%Z = Some t' ∧
        status t' = "completed" ∧
        completed_at t' = Some (clock (ticks before)) ∧
        updated_at t' = clock (S (ticks before)).
Proof.
  apply (complete_restamps
           [Demo.get_as Demo.alice []; Demo.get_as Demo.alice []]
           (Demo.get_as Demo.alice []) Demo.alice 1 Demo.one_task
           (mkTodo "Buy milk" "" "pending" "medium" None 1000 1001 None Demo.alice)).
  - repeat constructor.
  - reflexivity.
  - vm_compute. reflexivity.
  - reflexivity.
Defined.

(** C10. A completion call, whatever its outcome, keeps the row under its
    key with its title, description, priority, due date, owner and
    creation time, and touches no other row. *)
Theorem complete_frame `{Env} (request : Request) (pk : Z) (w : World) (t : Todo) :
  table w !! pk = Some t →
  let after := world_after (todo_complete request pk w) in
  (∃ t', table after !! pk = Some t' ∧
         title t' = title t ∧
         description t' = description t ∧
         priority t' = priority t ∧
         due_date t' = due_date t ∧
         owner t' = owner t ∧
         created_at t' = created_at t) ∧
  (∀ pk', pk' ≠ pk → table after !! pk' = table w !! pk') ∧
  next_pk after = next_pk w.
Proof.
  intros Hrow after. subst after.
  destruct (user request) as [u |] eqn:Hu.
  - destruct (decide (owner t = u)) as [Hown | Hown].
    + rewrite (todo_complete_run _ _ _ _ _ Hu Hrow Hown).
      cbn [world_after snd table next_pk].
      split; [| split; [| reflexivity]].
      * eexists. split; [apply lookup_insert_eq |]. cbn. auto 10.
      * intros pk' Hne. apply lookup_insert_ne. congruence.
    + rewrite todo_complete_noop.
      * split; [exists t; auto 10 | auto].
      * right. exists u. split; [done |]. right. eauto.
  - rewrite todo_complete_noop by (left; done).
    split; [exists t; auto 10 | auto].
Qed.

Lemma complete_frame_witness :
  let request := Demo.get_as Demo.alice [] in
  let t := mkTodo "Pay rent" "" "pending" "medium" (Some 500%Z) 1004 1005 None
                  Demo.alice in
  let after := world_after (todo_complete request 3 Demo.three_tasks) in
  (∃ t', table after !! 3%Z = Some t' ∧
         title t' = title t ∧
         description t' = description t ∧
         priority t' = priority t ∧
         due_date t' = due_date t ∧
         owner t' = owner t ∧
         created_at t' = created_at t) ∧
  (∀ pk', pk' ≠ 3%Z → table after !! pk' = table Demo.three_tasks !! pk') ∧
  next_pk after = next_pk Demo.three_tasks.
Proof.
  apply (complete_frame (Demo.get_as Demo.alice []) 3 Demo.three_tasks
           (mkTodo "Pay rent" "" "pending" "medium" (Some 500%Z) 1004 1005 None
                   Demo.alice)).
  vm_compute. reflexivity.
Defined.

(** ** Creating a task *)

Section Create.
Context `{Env}.

Lemma truthy_false v : truthy v = false ↔ v = None ∨ v = Some "".
Proof.
  destruct v as [s |]; cbn.
  - rewrite bool_decide_eq_false. split.
    + intros Hs. right. f_equal. destruct (decide (s = "")); [done | contradiction].
    + intros [Hs | Hs]; [discriminate |]. injection Hs as ->. auto.
  - split; auto.
Qed.

Lemma truthy_true v : truthy v = true ↔ ∃ s, v = Some s ∧ s ≠ "".
Proof.
  destruct v as [s |]; cbn.
  - rewrite bool_decide_eq_true. split; [eauto |]. intros (s' & [= ->] & Hs). done.
  - split; [discriminate |]. intros (s & Hs & _). discriminate.
Qed.

End Create.

(** C4, as the code has it. A create whose title is absent or empty
    raises nothing: it returns the form again, reports the error "Title
    is required!" when it was a submission, and leaves the table, its
    size and the key sequence as they were. *)
Theorem create_without_title `{Env} (request : Request) (u : User) (w : World) :
  user request = Some u →
  POST request !! "title" = None ∨ POST request !! "title" = Some "" →
  let after := world_after (todo_create request w) in
  result (todo_create request w)
    = Return (Render "todo/todo_form.html" (FormContext None "Create")) ∧
  (method request = POST_ →
   flash after = flash w ++ [(ERROR, "Title is required!")]) ∧
  table after = table w ∧
  size (table after) = size (table w) ∧
  next_pk after = next_pk w.
Proof.
  intros Hu Htitle after. subst after.
  apply truthy_false in Htitle.
  unfold todo_create, login_required. rewrite Hu.
  unfold todo_create_view.
  destruct (method request); [| rewrite Htitle]; cbn; auto with congruence.
Qed.

Lemma create_without_title_witness :
  let request := Demo.post_as Demo.alice [("description", "No title");
                                          ("priority", "low")] in
  let after := world_after (todo_create request Demo.three_tasks) in
  result (todo_create request Demo.three_tasks)
    = Return (Render "todo/todo_form.html" (FormContext None "Create")) ∧
  (method request = POST_ →
   flash after = flash Demo.three_tasks ++ [(ERROR, "Title is required!")]) ∧
  table after = table Demo.three_tasks ∧
  size (table after) = size (table Demo.three_tasks) ∧
  next_pk after = next_pk Demo.three_tasks.
Proof.
  apply (create_without_title
           (Demo.post_as Demo.alice [("description", "No title");
                                     ("priority", "low")])
           Demo.alice Demo.three_tasks).
  - reflexivity.
  - left. vm_compute. reflexivity.
Defined.

(** C4, as worded, fails: a submission without a title does not end in
    an error raised to the caller; the view returns the form. *)
Lemma create_without_title_counterexample : ¬ create_without_title_as_worded.
Proof.
  intros Hclaim.
  destruct (Hclaim Demo.demo_env Demo.three_tasks
              (Demo.post_as Demo.alice [("description", "No title");
                                        ("priority", "low")])
              Demo.alice eq_refl eq_refl (or_introl eq_refl))
    as [[e Hres] _].
  vm_compute in Hres. discriminate.
Qed.

(** C9, as the code has it. With a title, a create whose due date is
    absent or empty stores the new row without a due date; a due date
    that is not empty is handed to the date-time field as it is: text
    that parses is stored as that timestamp, text that does not parse is
    rejected by the field and nothing is stored. *)
Theorem create_due_date `{Env} (request : Request) (u : User) (w : World) :
  user request = Some u →
  method request = POST_ →
  truthy (POST request !! "title") = true →
  let after := world_after (todo_create request w) in
  (POST request !! "due_date" = None ∨ POST request !! "due_date" = Some "" →
   result (todo_create request w) = Return (Redirect "todo_list" None) ∧
   ∃ t, table after !! next_pk w = Some t ∧ due_date t = None) ∧
  (∀ raw, POST request !! "due_date" = Some raw → raw ≠ "" →
     match parse_datetime raw with
     | Some d =>
         result (todo_create request w) = Return (Redirect "todo_list" None) ∧
         ∃ t, table after !! next_pk w = Some t ∧ due_date t = Some d
     | None =>
         result (todo_create request w) = Raise (InvalidDateTime raw) ∧
         after = w
     end).
Proof.
  intros Hu Hm Htitle after. subst after.
  unfold todo_create, login_required. rewrite Hu.
  unfold todo_create_view. rewrite Hm, Htitle.
  split.
  - intros Hdue. apply truthy_false in Hdue. rewrite Hdue.
    cbn. split; [reflexivity |].
    eexists. split; [apply lookup_insert_eq | reflexivity].
  - intros raw Hdue Hraw.
    assert (truthy (POST request !! "due_date") = true) as ->
      by (apply truthy_true; eauto).
    rewrite Hdue.
    destruct (parse_datetime raw) as [d |] eqn:Hp.
    + unfold objects_create, to_python, mbind, M_bind. rewrite Hp.
      cbn. split; [reflexivity |].
      eexists. split; [apply lookup_insert_eq | reflexivity].
    + unfold objects_create, to_python, mbind, M_bind. rewrite Hp.
      cbn. auto.
Qed.

Lemma create_due_date_witness :
  let request := Demo.post_as Demo.alice [("title", "Water plants");
                                          ("due_date", "next week")] in
  result (todo_create request Demo.one_task) = Raise (InvalidDateTime "next week") ∧
  world_after (todo_create request Demo.one_task) = Demo.one_task.
Proof.
  pose proof (create_due_date
                (Demo.post_as Demo.alice [("title", "Water plants");
                                          ("due_date", "next week")])
                Demo.alice Demo.one_task eq_refl eq_refl eq_refl) as [_ Hraw].
  exact (Hraw "next week" eq_refl ltac:(discriminate)).
Defined.

(** C9, as worded, fails: a create with the due date "next week", which
    the field cannot parse, raises instead of storing a row. *)
Lemma create_unparsable_counterexample : ¬ create_unparsable_as_worded.
Proof.
  intros Hclaim.
  destruct (Hclaim Demo.demo_env empty_world
              (Demo.post_as Demo.alice [("title", "Water plants");
                                        ("due_date", "next week")])
              Demo.alice "next week" eq_refl eq_refl eq_refl eq_refl eq_refl)
    as (t & Hres & _).
  vm_compute in Hres. discriminate.
Qed.

(** ** Updating a task *)

Section Update.
Context `{Env}.

(** A submitted update that returns has found the row of its user and
    written it back with each field as follows. *)
Lemma todo_update_post_inv request u pk w r w' :
  user request = Some u →
  method request = POST_ →
  todo_update request pk w = (Return r, w') →
  ∃ t t',
    table w !! pk = Some t ∧ owner t = u ∧
    r = Redirect "todo_detail" (Some pk) ∧
    w' = mkWorld (<[pk := t']> (table w)) (next_pk w) (S (ticks w))
           (flash w ++ [(SUCCESS,
                         "TODO " +:+ quote +:+ title t' +:+ quote
                         +:+ " updated successfully!")]) ∧
    title t' = default (title t) (POST request !! "title") ∧
    description t' = default (description t) (POST request !! "description") ∧
    status t' = default (status t) (POST request !! "status") ∧
    priority t' = default (priority t) (POST request !! "priority") ∧
    due_date t' = (if truthy (POST request !! "due_date")
                   then POST request !! "due_date" ≫= parse_datetime
                   else None) ∧
    created_at t' = created_at t ∧
    updated_at t' = clock (ticks w) ∧
    completed_at t' = completed_at t ∧
    owner t' = owner t.
Proof.
  intros Hu Hm. unfold todo_update, login_required. rewrite Hu.
  unfold todo_update_view.
  destruct (get_object_or_404_cases pk u w) as [(t & Hrow & Hown & _) | [Hh _]].
  - rewrite (bind_lookup_found _ _ _ _ _ Hrow Hown), Hm.
    intros Hrun. exists t.
    destruct (truthy (POST request !! "due_date")) eqn:Htruthy.
    + apply truthy_true in Htruthy as (raw & Hraw & _).
      rewrite Hraw in Hrun |- *.
      unfold save_assigned, to_python, mbind, M_bind in Hrun. cbn in Hrun.
      destruct (parse_datetime raw) as [d |] eqn:Hp; cbn in Hrun.
      * injection Hrun as <- <-.
        match goal with |- context [<[pk := ?x]> (table w)] => exists x end.
        cbn. rewrite Hp. auto 15.
      * discriminate.
    + cbn in Hrun. injection Hrun as <- <-.
      match goal with |- context [<[pk := ?x]> (table w)] => exists x end.
      cbn. auto 15.
  - rewrite (bind_lookup_hidden _ _ _ _ Hh). discriminate.
Qed.

(** A submitted update of a visible row with no due date returns. *)
Lemma todo_update_post_returns request u pk w t :
  user request = Some u →
  method request = POST_ →
  table w !! pk = Some t → owner t = u →
  truthy (POST request !! "due_date") = false →
  ∃ w', todo_update request pk w = (Return (Redirect "todo_detail" (Some pk)), w').
Proof.
  intros Hu Hm Hrow Hown Hdue. unfold todo_update, login_required. rewrite Hu.
  unfold todo_update_view.
  rewrite (bind_lookup_found _ _ _ _ _ Hrow Hown), Hm, Hdue.
  cbn. eauto.
Qed.

End Update.

(** C5. After a submitted update that returns, each of title,
    description, status and priority that the form does not carry has its
    earlier value (and the submitted value when the form carries it),
    while the due date is null whenever the form carries it empty or not
    at all. *)
Theorem update_is_partial `{Env} (request : Request) (u : User) (pk : Z)
    (w w' : World) (r : Response) :
  user request = Some u →
  method request = POST_ →
  todo_update request pk w = (Return r, w') →
  ∃ t t',
    table w !! pk = Some t ∧ table w' !! pk = Some t' ∧
    (POST request !! "title" = None → title t' = title t) ∧
    (POST request !! "description" = None → description t' = description t) ∧
    (POST request !! "status" = None → status t' = status t) ∧
    (POST request !! "priority" = None → priority t' = priority t) ∧
    (∀ v, POST request !! "title" = Some v → title t' = v) ∧
    (∀ v, POST request !! "description" = Some v → description t' = v) ∧
    (∀ v, POST request !! "status" = Some v → status t' = v) ∧
    (∀ v, POST request !! "priority" = Some v → priority t' = v) ∧
    (POST request !! "due_date" = None ∨ POST request !! "due_date" = Some "" →
     due_date t' = None).
Proof.
  intros Hu Hm Hrun.
  destruct (todo_update_post_inv _ _ _ _ _ _ Hu Hm Hrun)
    as (t & t' & Hrow & _ & _ & -> & Ht & Hd & Hs & Hp & Hdue & _).
  exists t, t'. split; [exact Hrow |]. split; [apply lookup_insert_eq |].
  rewrite Ht, Hd, Hs, Hp, Hdue.
  repeat split; try (intros -> || intros v ->); try reflexivity.
  intros Hempty. apply truthy_false in Hempty. rewrite Hempty. reflexivity.
Qed.

Lemma update_is_partial_witness :
  let request := Demo.post_as Demo.alice [("status", "in_progress")] in
  ∃ t t',
    table Demo.three_tasks !! 3%Z = Some t ∧
    table (world_after (todo_update request 3 Demo.three_tasks)) !! 3%Z = Some t' ∧
    title t' = "Pay rent" ∧ status t' = "in_progress" ∧
    due_date t = Some 500%Z ∧ due_date t' = None.
Proof.
  intros request.
  destruct (update_is_partial request Demo.alice 3 Demo.three_tasks
              (world_after (todo_update request 3 Demo.three_tasks))
              (Redirect "todo_detail" (Some 3%Z)) eq_refl eq_refl)
    as (t & t' & Ht & Ht' & Htitle & _ & _ & _ & _ & _ & Hstatus & _ & Hdue).
  - vm_compute. reflexivity.
  - exists t, t'. split; [exact Ht |]. split; [exact Ht' |].
    rewrite (Htitle eq_refl), (Hstatus "in_progress" eq_refl), (Hdue (or_introl eq_refl)).
    vm_compute in Ht. injection Ht as <-. auto.
Defined.

(** C6. A submitted update that returns leaves [completed_at] as it was,
    also when it sets the status to [completed]; and a row with status
    [completed] and no [completed_at] is reachable: create a task, then
    update its status to [completed]. *)
Theorem update_keeps_completed_at `{Env} :
  (∀ (request : Request) (u : User) (pk : Z) (w w' : World) (r : Response),
     user request = Some u →
     method request = POST_ →
     todo_update request pk w = (Return r, w') →
     ∃ t t',
       table w !! pk = Some t ∧ table w' !! pk = Some t' ∧
       completed_at t' = completed_at t ∧
       (POST request !! "status" = Some "completed" → status t' = "completed")) ∧
  (∃ (w : World) (pk : Z) (t : Todo),
     reachable w ∧ table w !! pk = Some t ∧
     status t = "completed" ∧ completed_at t = None).
Proof.
  split.
  - intros request u pk w w' r Hu Hm Hrun.
    destruct (todo_update_post_inv _ _ _ _ _ _ Hu Hm Hrun)
      as (t & t' & Hrow & _ & _ & -> & _ & _ & Hs & _ & _ & _ & _ & Hc & _).
    exists t, t'. split; [exact Hrow |]. split; [apply lookup_insert_eq |].
    split; [exact Hc |]. intros Hst. rewrite Hs, Hst. reflexivity.
  - exists (serve_all
              [CallCreate (Demo.post_as Demo.alice [("title", "Buy milk")]);
               CallUpdate (Demo.post_as Demo.alice [("status", "completed")]) 1]
              empty_world), 1%Z.
    eexists. split; [eexists; reflexivity |].
    split; [vm_compute; reflexivity |]. split; reflexivity.
Qed.

Lemma update_keeps_completed_at_witness :
  let request := Demo.post_as Demo.alice [("status", "completed")] in
  ∃ t t',
    table Demo.one_task !! 1%Z = Some t ∧
    table (world_after (todo_update request 1 Demo.one_task)) !! 1%Z = Some t' ∧
    completed_at t' = completed_at t ∧
    (POST request !! "status" = Some "completed" → status t' = "completed").
Proof.
  intros request.
  apply (proj1 update_keeps_completed_at request Demo.alice 1%Z Demo.one_task
           (world_after (todo_update request 1 Demo.one_task))
           (Redirect "todo_detail" (Some 1%Z)) eq_refl eq_refl).
  vm_compute. reflexivity.
Defined.

(** ** Statistics *)

Section Stats.
Context `{Env}.

Lemma is_overdue_returns t w :
  ∃ b w', is_overdue t w = (Return b, w') ∧ table w' = table w.
Proof.
  unfold is_overdue. destruct (due_date t); [| cbn; eauto].
  destruct (bool_decide (status t ≠ "completed")); cbn; eauto.
Qed.

(** Counting the overdue rows reads the clock and nothing else, and never
    raises. *)
Lemma count_overdue_returns todos : ∀ w,
  ∃ n w', count_overdue todos w = (Return n, w') ∧ table w' = table w.
Proof.
  induction todos as [| r rest IH]; intros w; cbn.
  - eauto.
  - unfold mbind, M_bind.
    destruct (is_overdue_returns r.2 w) as (b & w1 & -> & Hw1).
    destruct (IH w1) as (n & w2 & -> & Hw2).
    do 2 eexists. split; [reflexivity | congruence].
Qed.

Lemma in_vocabulary_iff t :
  in_vocabulary t
  ↔ status t = "pending" ∨ status t = "in_progress" ∨ status t = "completed".
Proof.
  unfold in_vocabulary, STATUS_CHOICES.
  rewrite !elem_of_cons, elem_of_nil. tauto.
Qed.

(** The three counted statuses and the rest split any list of rows. *)
Lemma status_split (rows : list (Z * Todo)) :
  qs_count (qs_filter (has_status "pending") rows)
  + qs_count (qs_filter (has_status "in_progress") rows)
  + qs_count (qs_filter (has_status "completed") rows)
  + length (filter (λ r, ¬ in_vocabulary r.2) rows)
  = length rows.
Proof.
  unfold qs_count, qs_filter, has_status.
  induction rows as [| [pk t] rows IH]; [reflexivity |].
  rewrite !filter_cons. cbn [snd].
  pose proof (in_vocabulary_iff t) as Hv.
  repeat case_decide;
    repeat match goal with
           | Hb : bool_decide _ = true |- _ => apply bool_decide_eq_true in Hb
           | Hb : bool_decide _ ≠ true |- _ =>
               apply not_true_is_false, bool_decide_eq_false in Hb
           end;
    cbn [length]; first [lia | exfalso; intuition congruence].
Qed.

Lemma no_row_out_of_vocabulary (rows : list (Z * Todo)) :
  length (filter (λ r, ¬ in_vocabulary r.2) rows) = 0
  ↔ ∀ r, r ∈ rows → in_vocabulary r.2.
Proof.
  rewrite length_zero_iff_nil. split.
  - intros Hnil r Hr.
    destruct (decide (in_vocabulary r.2)) as [| Hout]; [done |].
    assert (r ∈ filter (λ r, ¬ in_vocabulary r.2) rows) as Hin
      by (apply list_elem_of_filter; done).
    rewrite Hnil in Hin. inversion Hin.
  - intros Hall. apply elem_of_nil_inv. intros r Hr.
    apply list_elem_of_filter in Hr as [Hout Hr]. apply Hout, Hall, Hr.
Qed.

Lemma elem_of_owned_by u w pk t :
  (pk, t) ∈ owned_by u w ↔ table w !! pk = Some t ∧ owner t = u.
Proof.
  unfold owned_by, has_owner. rewrite list_elem_of_filter. cbn.
  rewrite bool_decide_eq_true, elem_of_map_to_list. tauto.
Qed.

(** What the statistics view returns for a logged-in user. *)
Lemma todo_stats_run request u w :
  user request = Some u →
  ∃ n w',
    todo_stats request w
    = (Return (Render "todo/todo_stats.html"
             (StatsContext
                {| total := qs_count (owned_by u w);
                   pending := qs_count (qs_filter (has_status "pending") (owned_by u w));
                   in_progress :=
                     qs_count (qs_filter (has_status "in_progress") (owned_by u w));
                   completed :=
                     qs_count (qs_filter (has_status "completed") (owned_by u w));
                   overdue := n;
                   high_priority :=
                     qs_count (qs_filter (has_priority "high") (owned_by u w)) |})),
       w')
    ∧ table w' = table w.
Proof.
  intros Hu. unfold todo_stats, login_required. rewrite Hu.
  unfold todo_stats_view, mbind, M_bind, objects_filter.
  fold (owned_by u w).
  destruct (count_overdue_returns (qs_iter (owned_by u w)) w) as (n & w' & -> & Hw').
  exists n, w'. split; [reflexivity | exact Hw'].
Qed.

End Stats.

(** C1, as the code has it. In every store state, so in every reachable
    one, the statistics of a user return with
    [pending + in_progress + completed <= total], where [total] counts the
    rows of the user and the others count them by exact status; the sum
    equals [total] exactly when every row of the user has a status of the
    vocabulary. *)
Theorem stats_partition `{Env} (request : Request) (u : User) (w : World) :
  user request = Some u →
  ∃ st,
    result (todo_stats request w)
      = Return (Render "todo/todo_stats.html" (StatsContext st)) ∧
    total st = length (owned_by u w) ∧
    pending st = length (filter (λ r, status r.2 = "pending") (owned_by u w)) ∧
    in_progress st
      = length (filter (λ r, status r.2 = "in_progress") (owned_by u w)) ∧
    completed st = length (filter (λ r, status r.2 = "completed") (owned_by u w)) ∧
    pending st + in_progress st + completed st ≤ total st ∧
    (pending st + in_progress st + completed st = total st
     ↔ ∀ pk t, table w !! pk = Some t → owner t = u → in_vocabulary t).
Proof.
  intros Hu.
  destruct (todo_stats_run request u w Hu) as (n & w' & -> & _).
  eexists. split; [reflexivity |]. cbn [total pending in_progress completed].
  pose proof (status_split (owned_by u w)) as Hsplit.
  pose proof (no_row_out_of_vocabulary (owned_by u w)) as Hvocab.
  assert (∀ s rows, qs_count (qs_filter (has_status s) rows)
                    = length (filter (λ r : Z * Todo, status r.2 = s) rows)) as Hcount.
  { intros s rows. unfold qs_count, qs_filter, has_status. f_equal.
    apply list_filter_iff. intros r. apply bool_decide_eq_true. }
  rewrite <- !Hcount. unfold qs_count at 1.
  repeat (split; [reflexivity || (unfold qs_count in *; lia) |]).
  split.
  - intros Hsum pk t Hrow Hown.
    assert (length (filter (λ r, ¬ in_vocabulary r.2) (owned_by u w)) = 0) as Hzero
      by (unfold qs_count in *; lia).
    apply (proj1 Hvocab Hzero (pk, t)), elem_of_owned_by. done.
  - intros Hall.
    assert (length (filter (λ r, ¬ in_vocabulary r.2) (owned_by u w)) = 0) as Hzero.
    { apply Hvocab. intros [pk t] Hr. apply elem_of_owned_by in Hr as [Hrow Hown].
      exact (Hall pk t Hrow Hown). }
    unfold qs_count in *. lia.
Qed.

Lemma stats_partition_witness :
  ∃ st,
    result (todo_stats (Demo.get_as Demo.alice []) Demo.three_tasks)
      = Return (Render "todo/todo_stats.html" (StatsContext st)) ∧
    total st = 2 ∧ pending st + in_progress st + completed st ≤ total st.
Proof.
  destruct (stats_partition (Demo.get_as Demo.alice []) Demo.alice
              Demo.three_tasks eq_refl)
    as (st & Hres & Htotal & _ & _ & _ & Hle & _).
  exists st. split; [exact Hres |]. split; [| exact Hle].
  rewrite Htotal. vm_compute. reflexivity.
Defined.

(** C1, as worded, fails: after a create and an update that sets the
    status to "archived", the user has one task and none is counted as
    pending, in progress or completed. *)
Lemma stats_partition_counterexample : ¬ stats_partition_as_worded.
Proof.
  intros Hclaim.
  specialize (Hclaim Demo.demo_env
    (serve_all
       [CallCreate (Demo.post_as Demo.alice [("title", "Buy milk")]);
        CallUpdate (Demo.post_as Demo.alice [("status", "archived")]) 1]
       empty_world)
    (Demo.get_as Demo.alice []) Demo.alice (mkStats 1 0 0 0 0 0)).
  cbv beta in Hclaim.
  assert (0 + 0 + 0 = 1) as Hbad; [| discriminate Hbad].
  apply Hclaim.
  - eexists. reflexivity.
  - reflexivity.
  - vm_compute. reflexivity.
Qed.

(** ** Listing *)

Section Listing.
Context `{Env}.

#[local] Instance newer_first_total : Total newer_first.
Proof. intros r1 r2. unfold newer_first. lia. Qed.

#[local] Instance newer_first_trans : Transitive newer_first.
Proof. intros r1 r2 r3. unfold newer_first. lia. Qed.

Lemma elem_of_qs_iter r qs : r ∈ qs_iter qs ↔ r ∈ qs.
Proof. unfold qs_iter. rewrite merge_sort_Permutation. reflexivity. Qed.

Lemma NoDup_qs_iter qs : NoDup qs → NoDup (qs_iter qs).
Proof. unfold qs_iter. rewrite merge_sort_Permutation. auto. Qed.

Lemma qs_iter_sorted qs : StronglySorted newer_first (qs_iter qs).
Proof. apply StronglySorted_merge_sort; apply _. Qed.

(** A filter narrows the rows only when its value is there and not
    empty. *)
Lemma elem_of_narrowed (field : Todo → string) (v : option string)
    (qs : list (Z * Todo)) pk t :
  (pk, t) ∈ (if truthy v
             then qs_filter (λ t, bool_decide (field t = default "" v)) qs
             else qs)
  ↔ (pk, t) ∈ qs ∧ (∀ s, v = Some s → s ≠ "" → field t = s).
Proof.
  destruct (truthy v) eqn:Hv.
  - apply truthy_true in Hv as (s & -> & Hs).
    unfold qs_filter. rewrite list_elem_of_filter. cbn.
    rewrite bool_decide_eq_true. split.
    + intros [Hf Hin]. split; [exact Hin |]. intros s' [= <-] _. exact Hf.
    + intros [Hin Hf]. split; [apply Hf; done | exact Hin].
  - apply truthy_false in Hv. split; [| tauto].
    intros Hin. split; [exact Hin |].
    intros s Hs Hne. destruct Hv as [-> | ->]; [discriminate |].
    injection Hs as <-. contradiction.
Qed.

Lemma NoDup_narrowed (P : Todo → bool) (v : option string) (qs : list (Z * Todo)) :
  NoDup qs → NoDup (if truthy v then qs_filter P qs else qs).
Proof.
  intros Hnd. destruct (truthy v); [apply NoDup_filter |]; exact Hnd.
Qed.

End Listing.

(** C8, as the code has it. For a logged-in user the list view returns,
    without raising and without changing the world, the rows of that user
    whose status equals the status filter and whose priority equals the
    priority filter, a filter applying when the request carries it with a
    value that is not empty; each such row once, newer rows first; and
    the empty list when no row matches. *)
Theorem list_filters `{Env} (request : Request) (u : User) (w : World) :
  user request = Some u →
  ∃ todos,
    todo_list request w
    = (Return (Render "todo/todo_list.html"
             (ListContext todos (GET request !! "status")
                          (GET request !! "priority"))), w) ∧
    (∀ pk t,
       (pk, t) ∈ todos ↔
       table w !! pk = Some t ∧ owner t = u ∧
       (∀ s, GET request !! "status" = Some s → s ≠ "" → status t = s) ∧
       (∀ s, GET request !! "priority" = Some s → s ≠ "" → priority t = s)) ∧
    NoDup todos ∧
    StronglySorted (λ r1 r2, (created_at r2.2 ≤ created_at r1.2)%Z) todos ∧
    ((∀ pk t, table w !! pk = Some t → owner t = u →
        ¬ ((∀ s, GET request !! "status" = Some s → s ≠ "" → status t = s) ∧
           (∀ s, GET request !! "priority" = Some s → s ≠ "" → priority t = s))) →
     todos = []).
Proof.
  intros Hu. unfold todo_list, login_required. rewrite Hu.
  unfold todo_list_view, mbind, M_bind, objects_filter. fold (owned_by u w).
  eexists. split; [reflexivity |].
  assert (∀ pk t,
    (pk, t) ∈ qs_iter
      (if truthy (GET request !! "priority")
       then qs_filter (has_priority (default "" (GET request !! "priority")))
              (if truthy (GET request !! "status")
               then qs_filter (has_status (default "" (GET request !! "status")))
                      (owned_by u w)
               else owned_by u w)
       else if truthy (GET request !! "status")
            then qs_filter (has_status (default "" (GET request !! "status")))
                   (owned_by u w)
            else owned_by u w)
    ↔ table w !! pk = Some t ∧ owner t = u ∧
      (∀ s, GET request !! "status" = Some s → s ≠ "" → status t = s) ∧
      (∀ s, GET request !! "priority" = Some s → s ≠ "" → priority t = s)) as Hmem.
  { intros pk t. rewrite elem_of_qs_iter.
    rewrite (elem_of_narrowed priority), (elem_of_narrowed status).
    rewrite elem_of_owned_by. tauto. }
  split; [exact Hmem |]. split; [| split].
  - apply NoDup_qs_iter.
    apply (NoDup_narrowed (has_priority _)), (NoDup_narrowed (has_status _)).
    apply NoDup_filter, NoDup_map_to_list.
  - apply qs_iter_sorted.
  - intros Hnone. apply elem_of_nil_inv. intros [pk t] Hin.
    apply Hmem in Hin as (Hrow & Hown & Hs & Hp).
    exact (Hnone pk t Hrow Hown (conj Hs Hp)).
Qed.

Lemma list_filters_witness :
  ∃ todos,
    todo_list (Demo.get_as Demo.alice [("status", "pending"); ("priority", "")])
              Demo.three_tasks
    = (Return (Render "todo/todo_list.html"
             (ListContext todos (Some "pending") (Some ""))), Demo.three_tasks) ∧
    ∀ pk t, (pk, t) ∈ todos → owner t = Demo.alice ∧ status t = "pending".
Proof.
  destruct (list_filters
              (Demo.get_as Demo.alice [("status", "pending"); ("priority", "")])
              Demo.alice Demo.three_tasks eq_refl)
    as (todos & Hrun & Hmem & _).
  exists todos. split; [exact Hrun |].
  intros pk t Hin. apply Hmem in Hin as (_ & Hown & Hs & _).
  split; [exact Hown | apply Hs; [reflexivity | discriminate]].
Defined.

(** C8, as worded, fails: with the status filter present but empty, the
    list still shows the pending task of the user. *)
Lemma list_counterexample : ¬ list_as_worded.
Proof.
  intros Hclaim.
  destruct (Hclaim Demo.demo_env Demo.one_task
              (Demo.get_as Demo.alice [("status", "")]) Demo.alice eq_refl)
    as (todos & sf & pf & Hres & Hmem).
  vm_compute in Hres. injection Hres as <- _ _.
  assert (status (mkTodo "Buy milk" "" "pending" "medium" None 1000 1001 None 1%Z)
          = "") as Hbad; [| discriminate Hbad].
  apply (Hmem 1%Z
           (mkTodo "Buy milk" "" "pending" "medium" None 1000 1001 None 1%Z)).
  - apply list_elem_of_here.
  - reflexivity.
Qed.

(** * Further properties of the views *)

(** ** What one call does to the world *)

Section Effects.
Context `{Env}.

Lemma serve_all_snoc calls c w :
  serve_all (calls ++ [c]) w = world_after (serve c (serve_all calls w)).
Proof. unfold serve_all. rewrite foldl_snoc. reflexivity. Qed.

Lemma serve_all_app calls1 calls2 w :
  serve_all (calls1 ++ calls2) w = serve_all calls2 (serve_all calls1 w).
Proof. unfold serve_all. rewrite foldl_app. reflexivity. Qed.

Lemma reachable_empty : reachable empty_world.
Proof. exists []. reflexivity. Qed.

Lemma reachable_serve c w : reachable w → reachable (world_after (serve c w)).
Proof. intros [calls ->]. exists (calls ++ [c]). symmetry. apply serve_all_snoc. Qed.

Lemma reachable_serve_all calls w : reachable w → reachable (serve_all calls w).
Proof. intros [calls0 ->]. exists (calls0 ++ calls). symmetry. apply serve_all_app. Qed.

(** Induction over the calls that lead to a world. *)
Lemma reachable_ind (P : World → Prop) :
  P empty_world →
  (∀ w c, reachable w → P w → P (world_after (serve c w))) →
  ∀ w, reachable w → P w.
Proof.
  intros Hinit Hstep w [calls ->].
  induction calls as [| c calls IH] using rev_ind; [exact Hinit |].
  rewrite serve_all_snoc. apply Hstep; [eexists; reflexivity | exact IH].
Qed.

Lemma todo_list_world request w : world_after (todo_list request w) = w.
Proof.
  unfold todo_list, login_required. destruct (user request); reflexivity.
Qed.

Lemma todo_detail_world request pk w : world_after (todo_detail request pk w) = w.
Proof.
  unfold todo_detail, login_required. destruct (user request) as [u |]; [| reflexivity].
  unfold todo_detail_view.
  destruct (get_object_or_404_cases pk u w) as [(t & Hrow & Hown & _) | [Hh _]].
  - rewrite (bind_lookup_found _ _ _ _ _ Hrow Hown). reflexivity.
  - rewrite (bind_lookup_hidden _ _ _ _ Hh). reflexivity.
Qed.

(** Reading the clock is all [is_overdue] does to the world. *)
Lemma is_overdue_frame t w :
  ∃ b w', is_overdue t w = (Return b, w') ∧
          table w' = table w ∧ next_pk w' = next_pk w ∧ flash w' = flash w ∧
          ticks w ≤ ticks w'.
Proof.
  unfold is_overdue.
  destruct (due_date t); [destruct (bool_decide (status t ≠ "completed")) |];
    cbn; do 2 eexists; (split; [reflexivity |]); cbn; repeat split; lia.
Qed.

Lemma count_overdue_frame todos : ∀ w,
  ∃ n w', count_overdue todos w = (Return n, w') ∧
          table w' = table w ∧ next_pk w' = next_pk w ∧ flash w' = flash w ∧
          ticks w ≤ ticks w'.
Proof.
  induction todos as [| r rest IH]; intros w; cbn.
  - do 2 eexists. split; [reflexivity |]. repeat split; lia.
  - unfold mbind, M_bind.
    destruct (is_overdue_frame r.2 w) as (b & w1 & -> & Ht1 & Hk1 & Hf1 & Hc1).
    destruct (IH w1) as (n & w2 & -> & Ht2 & Hk2 & Hf2 & Hc2).
    do 2 eexists. split; [reflexivity |].
    repeat split; try congruence. lia.
Qed.

Lemma todo_stats_world request w :
  table (world_after (todo_stats request w)) = table w ∧
  next_pk (world_after (todo_stats request w)) = next_pk w ∧
  flash (world_after (todo_stats request w)) = flash w ∧
  ticks w ≤ ticks (world_after (todo_stats request w)).
Proof.
  unfold todo_stats, login_required.
  destruct (user request) as [u |]; [| cbn; auto].
  unfold todo_stats_view, mbind, M_bind, objects_filter.
  destruct (count_overdue_frame
              (qs_iter (filter (λ r, has_owner u r.2 = true) (map_to_list (table w)))) w)
    as (n & w' & -> & Ht & Hk & Hf & Hc).
  cbn. auto.
Qed.

(** A create either writes nothing, or inserts one row under the next key
    of the sequence. *)
Lemma todo_create_cases request w :
  (world_after (todo_create request w) = w ∧
   result (todo_create request w) ≠ Return (Redirect "todo_list" None))
  ∨ (∃ text, todo_create request w
             = (Return (Render "todo/todo_form.html" (FormContext None "Create")),
                mkWorld (table w) (next_pk w) (ticks w)
                        (flash w ++ [(ERROR, text)])))
  ∨ (∃ u ttl due,
       user request = Some u ∧ method request = POST_ ∧
       POST request !! "title" = Some ttl ∧ ttl ≠ "" ∧
       due = (if truthy (POST request !! "due_date")
              then POST request !! "due_date" ≫= parse_datetime else None) ∧
       let t := mkTodo ttl (default "" (POST request !! "description")) "pending"
                       (default "medium" (POST request !! "priority")) due
                       (clock (ticks w)) (clock (S (ticks w))) None u in
       todo_create request w
       = (Return (Redirect "todo_list" None),
          mkWorld (<[next_pk w := t]> (table w)) (next_pk w + 1)%Z
                  (S (S (ticks w)))
                  (flash w ++ [(SUCCESS,
                                "TODO " +:+ quote +:+ ttl +:+ quote
                                +:+ " created successfully!")]))).
Proof.
  unfold todo_create, login_required.
  destruct (user request) as [u |] eqn:Hu; [| left; split; [reflexivity | discriminate]].
  unfold todo_create_view.
  destruct (method request) eqn:Hm; [left; split; [reflexivity | discriminate] |].
  destruct (truthy (POST request !! "title")) eqn:Htitle.
  - apply truthy_true in Htitle as (ttl & Httl & Hne). rewrite Httl.
    destruct (truthy (POST request !! "due_date")) eqn:Hdue.
    + apply truthy_true in Hdue as (raw & Hraw & _). rewrite Hraw.
      unfold objects_create, to_python, mbind, M_bind. cbn.
      destruct (parse_datetime raw) as [d |] eqn:Hp; cbn.
      * right. right. exists u, ttl, (Some d). auto 10.
      * left. split; [reflexivity | discriminate].
    + right. right. exists u, ttl, None. cbn. auto 10.
  - right. left. eexists. reflexivity.
Qed.

(** An update that raises has written nothing; it may have read the
    clock. *)
Lemma todo_update_raise request pk w e w' :
  todo_update request pk w = (Raise e, w') →
  table w' = table w ∧ next_pk w' = next_pk w ∧ flash w' = flash w ∧
  ticks w ≤ ticks w'.
Proof.
  unfold todo_update, login_required.
  destruct (user request) as [u |]; [| discriminate].
  unfold todo_update_view.
  destruct (get_object_or_404_cases pk u w) as [(t & Hrow & Hown & _) | [Hh _]].
  - rewrite (bind_lookup_found _ _ _ _ _ Hrow Hown).
    destruct (method request); [discriminate |].
    unfold save_assigned, to_python, mbind, M_bind. cbn.
    destruct (truthy (POST request !! "due_date")); [| discriminate].
    destruct (POST request !! "due_date") as [raw |]; [| discriminate].
    destruct (parse_datetime raw); cbn; [discriminate |].
    intros [= _ <-]. cbn. repeat split. lia.
  - rewrite (bind_lookup_hidden _ _ _ _ Hh). intros [= _ <-]. repeat split. lia.
Qed.

(** An update that is not a submission writes nothing. *)
Lemma todo_update_get request pk w :
  method request = GET_ → world_after (todo_update request pk w) = w.
Proof.
  intros Hm. unfold todo_update, login_required.
  destruct (user request) as [u |]; [| reflexivity].
  unfold todo_update_view.
  destruct (get_object_or_404_cases pk u w) as [(t & Hrow & Hown & _) | [Hh _]].
  - rewrite (bind_lookup_found _ _ _ _ _ Hrow Hown), Hm. reflexivity.
  - rewrite (bind_lookup_hidden _ _ _ _ Hh). reflexivity.
Qed.

(** A delete either writes nothing, or removes the row of its user. *)
Lemma todo_delete_cases request pk w :
  world_after (todo_delete request pk w) = w
  ∨ (∃ u t,
       user request = Some u ∧ method request = POST_ ∧
       table w !! pk = Some t ∧ owner t = u ∧
       todo_delete request pk w
       = (Return (Redirect "todo_list" None),
          mkWorld (delete pk (table w)) (next_pk w) (ticks w)
                  (flash w ++ [(SUCCESS,
                                "TODO " +:+ quote +:+ title t +:+ quote
                                +:+ " deleted successfully!")]))).
Proof.
  unfold todo_delete, login_required.
  destruct (user request) as [u |] eqn:Hu; [| left; reflexivity].
  unfold todo_delete_view.
  destruct (get_object_or_404_cases pk u w) as [(t & Hrow & Hown & _) | [Hh _]].
  - rewrite (bind_lookup_found _ _ _ _ _ Hrow Hown).
    destruct (method request) eqn:Hm; [left; reflexivity |].
    right. exists u, t. auto 10.
  - rewrite (bind_lookup_hidden _ _ _ _ Hh). left. reflexivity.
Qed.

End Effects.

Section Invariants.
Context `{Env}.

(** One call does one of four things to the table: nothing; insert a row
    of the caller under the next key; replace a row of the caller, by an
    update or by a completion; remove a row of the caller. *)
Lemma serve_effect c w :
  let w' := world_after (serve c w) in
  ticks w ≤ ticks w' ∧
  ((table w' = table w ∧ next_pk w' = next_pk w)
   ∨ (∃ u t,
        caller c = Some u ∧
        table w' = <[next_pk w := t]> (table w) ∧
        next_pk w' = (next_pk w + 1)%Z ∧
        owner t = u ∧ title t ≠ "" ∧ status t = "pending" ∧
        created_at t = clock (ticks w) ∧ updated_at t = clock (S (ticks w)) ∧
        completed_at t = None ∧ ticks w' = S (S (ticks w)))
   ∨ (∃ u pk t t',
        caller c = Some u ∧ table w !! pk = Some t ∧ owner t = u ∧
        table w' = <[pk := t']> (table w) ∧ next_pk w' = next_pk w ∧
        owner t' = owner t ∧ created_at t' = created_at t ∧
        ((completed_at t' = completed_at t ∧ updated_at t' = clock (ticks w) ∧
          ticks w' = S (ticks w))
         ∨ (completed_at t' = Some (clock (ticks w)) ∧
            updated_at t' = clock (S (ticks w)) ∧
            ticks w' = S (S (ticks w)))))
   ∨ (∃ u pk t,
        caller c = Some u ∧ table w !! pk = Some t ∧ owner t = u ∧
        table w' = delete pk (table w) ∧ next_pk w' = next_pk w)).
Proof.
  destruct c as [r | r pk | r | r pk | r pk | r pk | r]; cbn [serve].
  - rewrite todo_list_world. split; [lia | auto].
  - rewrite todo_detail_world. split; [lia | auto].
  - destruct (todo_create_cases r w)
      as [[-> _] | [[text ->] | (u & ttl & due & Hu & _ & _ & Hne & _ & Hrun)]].
    + split; [lia | auto].
    + cbn. split; [lia | auto].
    + cbn zeta in Hrun. rewrite Hrun. cbn -[insert].
      split; [lia |]. right. left. eexists u, _.
      split; [exact Hu |]. split; [reflexivity |]. cbn. auto 10.
  - destruct (todo_update r pk w) as [[resp | e] w'] eqn:Hrun.
    + destruct (method r) eqn:Hm.
      * pose proof (todo_update_get r pk w Hm) as Hw. rewrite Hrun in Hw.
        cbn in Hw |- *. subst w'. split; [lia | auto].
      * destruct (user r) as [u |] eqn:Hu.
        -- destruct (todo_update_post_inv _ _ _ _ _ _ Hu Hm Hrun)
             as (t & t' & Hrow & Hown & _ & -> & _ & _ & _ & _ & _ & Hc & Hup & Hco & Ho).
           cbn -[insert]. split; [lia |]. right. right. left.
           exists u, pk, t, t'. cbn. auto 15.
        -- unfold todo_update, login_required in Hrun. rewrite Hu in Hrun.
           injection Hrun as _ <-. cbn. split; [lia | auto].
    + apply todo_update_raise in Hrun as (Ht & Hk & _ & Hc). cbn.
      split; [exact Hc | auto].
  - destruct (todo_delete_cases r pk w) as [-> | (u & t & Hu & _ & Hrow & Hown & ->)].
    + split; [lia | auto].
    + cbn -[delete]. split; [lia |]. right. right. right.
      exists u, pk, t. auto 10.
  - destruct (user r) as [u |] eqn:Hu.
    + destruct (get_object_or_404_cases pk u w) as [(t & Hrow & Hown & _) | [Hh _]].
      * rewrite (todo_complete_run _ _ _ _ _ Hu Hrow Hown). cbn -[insert].
        split; [lia |]. right. right. left.
        eexists u, pk, t, _. split; [exact Hu |]. split; [exact Hrow |].
        split; [exact Hown |]. split; [reflexivity |]. cbn. auto 10.
      * rewrite todo_complete_noop by (right; eauto). split; [lia | auto].
    + rewrite todo_complete_noop by (left; done). split; [lia | auto].
  - destruct (todo_stats_world r w) as (Ht & Hk & _ & Hc). split; [exact Hc | auto].
Qed.

(** The key sequence only moves forward. *)
Lemma next_pk_serve c w : (next_pk w ≤ next_pk (world_after (serve c w)))%Z.
Proof.
  destruct (serve_effect c w)
    as [_ [[_ ->] | [(u & t & _ & _ & -> & _) | [(u & pk & t & t' & _ & _ & _ & _ & -> & _)
                                               | (u & pk & t & _ & _ & _ & _ & ->)]]]]; lia.
Qed.

Lemma keys_issued_serve c w :
  keys_issued w → keys_issued (world_after (serve c w)).
Proof.
  intros [Hpos Hkeys].
  destruct (serve_effect c w)
    as [_ [[Ht Hk] | [(u & t & _ & Ht & Hk & _)
                     | [(u & pk & t & t' & _ & Hrow & _ & Ht & Hk & _)
                       | (u & pk & t & _ & Hrow & _ & Ht & Hk)]]]];
    (split; [lia |]); intros pk0; rewrite Ht, Hk.
  - apply Hkeys.
  - rewrite lookup_insert. case_decide as Heq.
    + intros _. subst pk0. lia.
    + intros Hsome. specialize (Hkeys pk0 Hsome). lia.
  - rewrite lookup_insert. case_decide as Heq.
    + intros _. subst pk0. apply Hkeys. rewrite Hrow. eauto.
    + apply Hkeys.
  - rewrite lookup_delete. case_decide as Heq.
    + intros [? [=]].
    + apply Hkeys.
Qed.

Lemma keys_issued_reachable w : reachable w → keys_issued w.
Proof.
  revert w. apply reachable_ind.
  - split; [cbn; lia |]. intros pk [t Ht]. cbn in Ht.
    rewrite lookup_empty in Ht. discriminate.
  - intros w c _. apply keys_issued_serve.
Qed.

(** In a reachable world the next key is free. *)
Lemma next_pk_free w : reachable w → table w !! next_pk w = None.
Proof.
  intros Hr. destruct (keys_issued_reachable w Hr) as [_ Hkeys].
  destruct (table w !! next_pk w) as [t |] eqn:Hrow; [| reflexivity].
  assert (is_Some (table w !! next_pk w)) as Hsome by (rewrite Hrow; eauto).
  apply Hkeys in Hsome. lia.
Qed.

End Invariants.

(** ** Keys, owners and stamps across calls *)

Section History.
Context `{Env}.

(** What can have become of a row after one more call. *)
Lemma serve_row c w pk t :
  keys_issued w →
  table w !! pk = Some t →
  let w' := world_after (serve c w) in
  table w' !! pk = Some t
  ∨ (caller c = Some (owner t) ∧
     (table w' !! pk = None
      ∨ ∃ t', table w' !! pk = Some t' ∧
              owner t' = owner t ∧ created_at t' = created_at t ∧
              (completed_at t' = completed_at t ∨ is_Some (completed_at t')))).
Proof.
  intros [_ Hkeys] Hrow w'. subst w'.
  destruct (serve_effect c w)
    as [_ [[Ht _] | [(u & t1 & _ & Ht & _)
                    | [(u & pk1 & t1 & t1' & Hcaller & Hrow1 & Hown1 & Ht & _ & Ho & Hc & Hstamp)
                      | (u & pk1 & t1 & Hcaller & Hrow1 & Hown1 & Ht & _)]]]];
    rewrite Ht.
  - left. exact Hrow.
  - left. rewrite lookup_insert_ne; [exact Hrow |].
    assert (is_Some (table w !! pk)) as Hsome by (rewrite Hrow; eauto).
    apply Hkeys in Hsome. lia.
  - destruct (decide (pk1 = pk)) as [-> | Hne].
    + right. rewrite Hrow in Hrow1. injection Hrow1 as <-.
      split; [congruence |]. right. exists t1'.
      split; [apply lookup_insert_eq |]. split; [exact Ho |]. split; [exact Hc |].
      destruct Hstamp as [(-> & _) | (-> & _)]; eauto.
    + left. rewrite lookup_insert_ne by exact Hne. exact Hrow.
  - destruct (decide (pk1 = pk)) as [-> | Hne].
    + right. rewrite Hrow in Hrow1. injection Hrow1 as <-.
      split; [congruence |]. left. apply lookup_delete_eq.
    + left. rewrite lookup_delete_ne by exact Hne. exact Hrow.
Qed.

(** Whatever is found later under the key of a row has the owner and
    the creation time of that row, and a completion time if the row had
    one. *)
Lemma later_row calls : ∀ w pk t t',
  keys_issued w →
  table w !! pk = Some t →
  table (serve_all calls w) !! pk = Some t' →
  owner t' = owner t ∧ created_at t' = created_at t ∧
  (is_Some (completed_at t) → is_Some (completed_at t')).
Proof.
  induction calls as [| c calls IH] using rev_ind; intros w pk t t' Hkeys Hrow Hlater.
  - cbn in Hlater. rewrite Hrow in Hlater. injection Hlater as <-. auto.
  - rewrite serve_all_snoc in Hlater.
    set (w1 := serve_all calls w) in *.
    assert (keys_issued w1) as Hkeys1.
    { subst w1. clear -Hkeys. induction calls as [| c' calls IH'] using rev_ind;
        [exact Hkeys |]. rewrite serve_all_snoc. apply keys_issued_serve, IH'. }
    assert (pk < next_pk w1)%Z as Hlt.
    { assert (is_Some (table w !! pk)) as Hsome by (rewrite Hrow; eauto).
      apply Hkeys in Hsome.
      assert (next_pk w ≤ next_pk w1)%Z; [| lia].
      subst w1. clear. induction calls as [| c' calls IH'] using rev_ind;
        [cbn; lia |]. rewrite serve_all_snoc.
      pose proof (next_pk_serve c' (serve_all calls w)). lia. }
    destruct (table w1 !! pk) as [t1 |] eqn:Hrow1.
    + destruct (IH w pk t t1 Hkeys Hrow Hrow1) as (Ho & Hc & Hdone).
      destruct (serve_row c w1 pk t1 Hkeys1 Hrow1)
        as [Hsame | [_ [Hgone | (t2 & Hrow2 & Ho2 & Hc2 & Hdone2)]]].
      * rewrite Hsame in Hlater. injection Hlater as <-. auto.
      * rewrite Hgone in Hlater. discriminate.
      * rewrite Hrow2 in Hlater. injection Hlater as <-.
        split; [congruence |]. split; [congruence |].
        intros Hset. destruct Hdone2 as [-> | Hset2]; auto.
    + exfalso.
      destruct (serve_effect c w1)
        as [_ [[Ht _] | [(u & t1 & _ & Ht & _)
                        | [(u & pk1 & t1 & t1' & _ & Hr1 & _ & Ht & _)
                          | (u & pk1 & t1 & _ & Hr1 & _ & Ht & _)]]]];
        rewrite Ht in Hlater.
      * congruence.
      * rewrite lookup_insert_ne in Hlater by lia. congruence.
      * destruct (decide (pk1 = pk)) as [-> | Hne]; [congruence |].
        rewrite lookup_insert_ne in Hlater by exact Hne. congruence.
      * destruct (decide (pk1 = pk)) as [-> | Hne]; [congruence |].
        rewrite lookup_delete_ne in Hlater by exact Hne. congruence.
Qed.


(** One more call keeps the stamps of every row in order. *)
Lemma stamped_serve c w :
  (∀ pk t, table w !! pk = Some t → stamped_in_order w t) →
  ∀ pk t, table (world_after (serve c w)) !! pk = Some t →
          stamped_in_order (world_after (serve c w)) t.
Proof.
  intros Hall pk t.
  assert (∀ t0, stamped_in_order w t0 →
                stamped_in_order (world_after (serve c w)) t0) as Hmono.
  { intros t0 (i & j & Hij & Hrest). exists i, j.
    split; [| exact Hrest]. destruct (serve_effect c w) as [Hticks _]. lia. }
  destruct (serve_effect c w)
    as [_ [[Ht _] | [(u & t1 & _ & Ht & _ & _ & _ & _ & Hc & Hu & Hco & Hticks)
                    | [(u & pk1 & t1 & t1' & _ & Hrow1 & _ & Ht & _ & _ & Hc & Hstamp)
                      | (u & pk1 & t1 & _ & Hrow1 & _ & Ht & _)]]]];
    rewrite Ht.
  - intros Hrow. apply Hmono, (Hall pk), Hrow.
  - rewrite lookup_insert. case_decide as Heq.
    + intros [= <-]. exists (ticks w), (S (ticks w)).
      rewrite Hticks. split; [lia |]. auto.
    + intros Hrow. apply Hmono, (Hall pk), Hrow.
  - rewrite lookup_insert. case_decide as Heq.
    + intros [= <-].
      destruct (Hall pk1 t1 Hrow1) as (i & j & Hij & Hci & Huj & Hdone).
      destruct Hstamp as [(Hco & Hu & Hticks) | (Hco & Hu & Hticks)].
      * exists i, (ticks w). rewrite Hticks. split; [lia |].
        split; [congruence |]. split; [exact Hu |].
        rewrite Hco. destruct Hdone as [Hnone | (k & Hk & Hsome)]; [auto |].
        right. exists k. split; [lia | exact Hsome].
      * exists i, (S (ticks w)). rewrite Hticks. split; [lia |].
        split; [congruence |]. split; [exact Hu |].
        right. exists (ticks w). split; [lia | exact Hco].
    + intros Hrow. apply Hmono, (Hall pk), Hrow.
  - rewrite lookup_delete. case_decide as Heq; [discriminate |].
    intros Hrow. apply Hmono, (Hall pk), Hrow.
Qed.

Lemma stamped_reachable w :
  reachable w → ∀ pk t, table w !! pk = Some t → stamped_in_order w t.
Proof.
  revert w.
  apply (reachable_ind (λ w, ∀ pk t, table w !! pk = Some t → stamped_in_order w t)).
  - intros pk t Hrow. cbn in Hrow. rewrite lookup_empty in Hrow. discriminate.
  - intros w c _. apply stamped_serve.
Qed.

End History.

(** X1. In a reachable world a create that ends in the redirect to the
    list has stored its row under a key that was free: the table has one
    row more, every earlier row is still there as it was, and the key
    sequence has moved on by one. *)
Theorem create_adds_one_row `{Env} (request : Request) (w : World) :
  reachable w →
  result (todo_create request w) = Return (Redirect "todo_list" None) →
  let after := world_after (todo_create request w) in
  table w !! next_pk w = None ∧
  is_Some (table after !! next_pk w) ∧
  size (table after) = S (size (table w)) ∧
  (∀ pk t, table w !! pk = Some t → table after !! pk = Some t) ∧
  next_pk after = (next_pk w + 1)%Z.
Proof.
  intros Hreach Hres after. subst after.
  pose proof (next_pk_free w Hreach) as Hfree.
  destruct (todo_create_cases request w)
    as [[_ Hno] | [[text Hrun] | (u & ttl & due & _ & _ & _ & _ & _ & Hrun)]].
  - contradiction.
  - rewrite Hrun in Hres. discriminate.
  - cbn zeta in Hrun. rewrite Hrun. cbn -[insert].
    split; [exact Hfree |]. split; [rewrite lookup_insert_eq; eauto |].
    split; [apply map_size_insert_None, Hfree |]. split; [| reflexivity].
    intros pk t Hrow. rewrite lookup_insert_ne; [exact Hrow | congruence].
Qed.

Lemma create_adds_one_row_witness :
  let request := Demo.post_as Demo.bob [("title", "Call home")] in
  let after := world_after (todo_create request Demo.one_task) in
  table Demo.one_task !! next_pk Demo.one_task = None ∧
  is_Some (table after !! next_pk Demo.one_task) ∧
  size (table after) = S (size (table Demo.one_task)) ∧
  (∀ pk t, table Demo.one_task !! pk = Some t → table after !! pk = Some t) ∧
  next_pk after = (next_pk Demo.one_task + 1)%Z.
Proof.
  apply (create_adds_one_row (Demo.post_as Demo.bob [("title", "Call home")])
           Demo.one_task).
  - eexists. reflexivity.
  - vm_compute. reflexivity.
Defined.

(** X2. In a reachable world no call changes, removes or replaces a row
    of a user other than the caller: whatever view is called, by another
    user or by a visitor, the row is found unchanged afterwards. *)
Theorem other_users_rows_untouched `{Env} (c : Call) (w : World) (pk : Z) (t : Todo) :
  reachable w →
  table w !! pk = Some t →
  caller c ≠ Some (owner t) →
  table (world_after (serve c w)) !! pk = Some t.
Proof.
  intros Hreach Hrow Hother.
  destruct (serve_row c w pk t (keys_issued_reachable w Hreach) Hrow)
    as [Hsame | [Hcaller _]]; [exact Hsame | contradiction].
Qed.

Lemma other_users_rows_untouched_witness :
  table (world_after
           (serve (CallUpdate (Demo.post_as Demo.alice [("status", "completed")]) 2)
                  Demo.three_tasks)) !! 2%Z
  = Some (mkTodo "Call home" "" "pending" "high" None 1002 1003 None Demo.bob).
Proof.
  apply (other_users_rows_untouched
           (CallUpdate (Demo.post_as Demo.alice [("status", "completed")]) 2)
           Demo.three_tasks 2
           (mkTodo "Call home" "" "pending" "high" None 1002 1003 None Demo.bob)).
  - eexists. reflexivity.
  - vm_compute. reflexivity.
  - vm_compute. discriminate.
Defined.

(** X3. A key stays with its task: starting from a reachable world,
    whatever calls follow, a row found later under the key of a row has
    the same owner and the same creation time; no view reassigns either,
    and the key is never given to a task of another owner. *)
Theorem key_keeps_identity `{Env} (calls : list Call) (w : World) (pk : Z)
    (t t' : Todo) :
  reachable w →
  table w !! pk = Some t →
  table (serve_all calls w) !! pk = Some t' →
  owner t' = owner t ∧ created_at t' = created_at t.
Proof.
  intros Hreach Hrow Hlater.
  destruct (later_row calls w pk t t' (keys_issued_reachable w Hreach) Hrow Hlater)
    as (Ho & Hc & _).
  auto.
Qed.

Lemma key_keeps_identity_witness :
  let calls := [CallUpdate (Demo.post_as Demo.alice [("title", "Buy oat milk")]) 1;
                CallComplete (Demo.get_as Demo.alice []) 1;
                CallDelete (Demo.post_as Demo.alice []) 3;
                CallCreate (Demo.post_as Demo.bob [("title", "Book flight")])] in
  ∃ t', table (serve_all calls Demo.three_tasks) !! 1%Z = Some t' ∧
        title t' = "Buy oat milk" ∧ owner t' = Demo.alice ∧ created_at t' = 1000%Z.
Proof.
  intros calls.
  eexists. split; [vm_compute; reflexivity |]. split; [reflexivity |].
  apply (key_keeps_identity calls Demo.three_tasks 1
           (mkTodo "Buy milk" "" "pending" "medium" None 1000 1001 None Demo.alice)).
  - eexists. reflexivity.
  - vm_compute. reflexivity.
  - vm_compute. reflexivity.
Defined.

(** X4. A completion time, once set, is never cleared: starting from a
    reachable world with a row that has one, whatever calls follow, a row
    found later under that key has one too, also after an update that
    moves the status away from [completed]. *)
Theorem completed_at_stays_set `{Env} (calls : list Call) (w : World) (pk : Z)
    (t t' : Todo) :
  reachable w →
  table w !! pk = Some t →
  is_Some (completed_at t) →
  table (serve_all calls w) !! pk = Some t' →
  is_Some (completed_at t').
Proof.
  intros Hreach Hrow Hset Hlater.
  destruct (later_row calls w pk t t' (keys_issued_reachable w Hreach) Hrow Hlater)
    as (_ & _ & Hdone).
  exact (Hdone Hset).
Qed.

Lemma completed_at_stays_set_witness :
  let w := serve_all [CallComplete (Demo.get_as Demo.alice []) 1] Demo.one_task in
  let calls := [CallUpdate (Demo.post_as Demo.alice [("status", "pending")]) 1] in
  ∃ t', table (serve_all calls w) !! 1%Z = Some t' ∧
        status t' = "pending" ∧ is_Some (completed_at t').
Proof.
  intros w calls.
  eexists. split; [vm_compute; reflexivity |]. split; [reflexivity |].
  apply (completed_at_stays_set calls w 1
           (mkTodo "Buy milk" "" "completed" "medium" None 1000 1003 (Some 1002%Z)
                   Demo.alice)).
  - exists [CallCreate (Demo.post_as Demo.alice [("title", "Buy milk")]);
            CallComplete (Demo.get_as Demo.alice []) 1].
    reflexivity.
  - vm_compute. reflexivity.
  - eexists. reflexivity.
  - vm_compute. reflexivity.
Defined.

(** X5. With a clock that never runs backwards, every row of a reachable
    world has its creation time no later than its last update, and a
    completion time, when set, between the two. *)
Theorem stamps_in_order `{Env} (w : World) (pk : Z) (t : Todo) :
  clock_monotone →
  reachable w →
  table w !! pk = Some t →
  (created_at t ≤ updated_at t)%Z ∧
  (∀ c, completed_at t = Some c → (created_at t ≤ c ≤ updated_at t)%Z).
Proof.
  intros Hmono Hreach Hrow.
  destruct (stamped_reachable w Hreach pk t Hrow) as (i & j & Hij & -> & -> & Hdone).
  split; [apply Hmono; lia |].
  intros c Hc. destruct Hdone as [Hnone | (k & Hk & Hsome)]; [congruence |].
  rewrite Hsome in Hc. injection Hc as <-.
  split; apply Hmono; lia.
Qed.

Lemma stamps_in_order_witness :
  let t := mkTodo "Pay rent" "" "pending" "medium" (Some 500%Z) 1004 1005 None
                  Demo.alice in
  (created_at t ≤ updated_at t)%Z ∧
  (∀ c, completed_at t = Some c → (created_at t ≤ c ≤ updated_at t)%Z).
Proof.
  apply (stamps_in_order Demo.three_tasks 3).
  - intros i j Hij. cbn. lia.
  - eexists. reflexivity.
  - vm_compute. reflexivity.
Defined.

(** ** Views that only read, and what create and delete leave behind *)

Section MoreViews.
Context `{Env}.

(** What a submitted update of a visible row does when its due date is
    absent, empty, or text that parses. *)
Lemma todo_update_post_run request u pk w t due :
  user request = Some u →
  method request = POST_ →
  table w !! pk = Some t → owner t = u →
  (if truthy (POST request !! "due_date")
   then Some <$> (POST request !! "due_date" ≫= parse_datetime)
   else Some None) = Some due →
  let t' := mkTodo (default (title t) (POST request !! "title"))
                   (default (description t) (POST request !! "description"))
                   (default (status t) (POST request !! "status"))
                   (default (priority t) (POST request !! "priority"))
                   due (created_at t) (clock (ticks w)) (completed_at t) (owner t) in
  todo_update request pk w
  = (Return (Redirect "todo_detail" (Some pk)),
     mkWorld (<[pk := t']> (table w)) (next_pk w) (S (ticks w))
             (flash w ++ [(SUCCESS,
                           "TODO " +:+ quote +:+ title t' +:+ quote
                           +:+ " updated successfully!")])).
Proof.
  intros Hu Hm Hrow Hown Hdue t'. subst t'.
  unfold todo_update, login_required. rewrite Hu.
  unfold todo_update_view.
  rewrite (bind_lookup_found _ _ _ _ _ Hrow Hown), Hm.
  destruct (truthy (POST request !! "due_date")) eqn:Htruthy.
  - apply truthy_true in Htruthy as (raw & Hraw & _).
    rewrite Hraw in Hdue |- *. cbn in Hdue.
    unfold save_assigned, to_python, mbind, M_bind. cbn.
    destruct (parse_datetime raw) as [d |]; [| discriminate].
    injection Hdue as <-. reflexivity.
  - injection Hdue as <-. reflexivity.
Qed.

Lemma todo_update_post_unparsable request u pk w t raw :
  user request = Some u →
  method request = POST_ →
  table w !! pk = Some t → owner t = u →
  POST request !! "due_date" = Some raw → raw ≠ "" →
  parse_datetime raw = None →
  todo_update request pk w
  = (Raise (InvalidDateTime raw),
     mkWorld (table w) (next_pk w) (S (ticks w)) (flash w)).
Proof.
  intros Hu Hm Hrow Hown Hdue Hne Hp.
  unfold todo_update, login_required. rewrite Hu.
  unfold todo_update_view.
  rewrite (bind_lookup_found _ _ _ _ _ Hrow Hown), Hm, Hdue.
  assert (truthy (Some raw) = true) as -> by (apply truthy_true; eauto).
  unfold save_assigned, to_python, mbind, M_bind. cbn. rewrite Hp. reflexivity.
Qed.

End MoreViews.

(** X6. The list, detail and statistics views never write, and neither do
    the create, update and delete views on a request that is not a
    submission: the table, the key sequence and the queued messages stay
    as they were. *)
Theorem reads_do_not_write `{Env} (request : Request) (pk : Z) (w : World) :
  world_after (todo_list request w) = w ∧
  world_after (todo_detail request pk w) = w ∧
  (table (world_after (todo_stats request w)) = table w ∧
   next_pk (world_after (todo_stats request w)) = next_pk w ∧
   flash (world_after (todo_stats request w)) = flash w) ∧
  (method request = GET_ →
   world_after (todo_create request w) = w ∧
   world_after (todo_update request pk w) = w ∧
   world_after (todo_delete request pk w) = w).
Proof.
  split; [apply todo_list_world |]. split; [apply todo_detail_world |].
  split; [destruct (todo_stats_world request w) as (Ht & Hk & Hf & _); auto |].
  intros Hm. split; [| split].
  - unfold todo_create, login_required.
    destruct (user request); [| reflexivity].
    unfold todo_create_view. rewrite Hm. reflexivity.
  - apply todo_update_get, Hm.
  - destruct (todo_delete_cases request pk w) as [Hw | (u & t & _ & Hpost & _)];
      [exact Hw | congruence].
Qed.

(** X7. A submitted create with a title and no due date stores, under
    the next key, a row with status [pending], no completion time and the
    caller as owner, whatever else the form carries; description and
    priority default to the empty text and to [medium]; then it queues
    one success message and redirects to the list. *)
Theorem create_stores_defaults `{Env} (request : Request) (u : User) (w : World)
    (ttl : string) :
  user request = Some u →
  method request = POST_ →
  POST request !! "title" = Some ttl → ttl ≠ "" →
  POST request !! "due_date" = None ∨ POST request !! "due_date" = Some "" →
  todo_create request w
  = (Return (Redirect "todo_list" None),
     mkWorld
       (<[next_pk w :=
            mkTodo ttl (default "" (POST request !! "description")) "pending"
                   (default "medium" (POST request !! "priority")) None
                   (clock (ticks w)) (clock (S (ticks w))) None u]> (table w))
       (next_pk w + 1)%Z (S (S (ticks w)))
       (flash w ++ [(SUCCESS,
                     "TODO " +:+ quote +:+ ttl +:+ quote
                     +:+ " created successfully!")])).
Proof.
  intros Hu Hm Httl Hne Hdue.
  apply truthy_false in Hdue.
  destruct (todo_create_cases request w)
    as [[Hw Hno] | [[text Hrun] | (u' & ttl' & due & Hu' & _ & Httl' & _ & Hd & Hrun)]].
  - exfalso. apply Hno.
    unfold todo_create, login_required. rewrite Hu.
    unfold todo_create_view. rewrite Hm, Httl, Hdue.
    assert (truthy (Some ttl) = true) as -> by (apply truthy_true; eauto).
    reflexivity.
  - exfalso. revert Hrun.
    unfold todo_create, login_required. rewrite Hu.
    unfold todo_create_view. rewrite Hm, Httl, Hdue.
    assert (truthy (Some ttl) = true) as -> by (apply truthy_true; eauto).
    discriminate.
  - cbn zeta in Hrun. rewrite Hrun. rewrite Hdue in Hd. subst due.
    congruence.
Qed.

Lemma create_stores_defaults_witness :
  let request :=
    Demo.post_as Demo.bob [("title", "Call home"); ("status", "completed");
                           ("owner", "1")] in
  table (world_after (todo_create request Demo.one_task)) !! 2%Z
  = Some (mkTodo "Call home" "" "pending" "medium" None 1002 1003 None Demo.bob).
Proof.
  intros request.
  rewrite (create_stores_defaults request Demo.bob Demo.one_task "Call home"
             eq_refl eq_refl eq_refl ltac:(discriminate) (or_introl eq_refl)).
  vm_compute. reflexivity.
Defined.

(** X8. After a create that ends in the redirect to the list, the detail
    view shows the new row to its creator, under the key the sequence
    had next, and raises [Http404] for every other user. *)
Theorem create_then_detail `{Env} (request : Request) (u : User) (w : World) :
  user request = Some u →
  result (todo_create request w) = Return (Redirect "todo_list" None) →
  let after := world_after (todo_create request w) in
  ∃ t,
    table after !! next_pk w = Some t ∧ owner t = u ∧
    (∀ r, user r = Some u →
          todo_detail r (next_pk w) after
          = (Return (Render "todo/todo_detail.html" (TodoContext (next_pk w) t)),
             after)) ∧
    (∀ r u', user r = Some u' → u' ≠ u →
             todo_detail r (next_pk w) after = (Raise Http404, after)).
Proof.
  intros Hu Hres after. subst after.
  destruct (todo_create_cases request w)
    as [[_ Hno] | [[text Hrun] | (u' & ttl & due & Hu' & _ & _ & _ & _ & Hrun)]].
  - contradiction.
  - rewrite Hrun in Hres. discriminate.
  - cbn zeta in Hrun. rewrite Hrun. cbn [world_after snd].
    assert (u' = u) as -> by congruence.
    eexists. split; [cbn; apply lookup_insert_eq |]. split; [reflexivity |].
    split.
    + intros r Hr. unfold todo_detail, login_required. rewrite Hr.
      unfold todo_detail_view.
      erewrite bind_lookup_found; [reflexivity | cbn; apply lookup_insert_eq | reflexivity].
    + intros r u' Hr Hne. unfold todo_detail, login_required. rewrite Hr.
      unfold todo_detail_view. apply bind_lookup_hidden.
      right. eexists. split; [cbn; apply lookup_insert_eq |]. cbn. congruence.
Qed.

Lemma create_then_detail_witness :
  let request := Demo.post_as Demo.bob [("title", "Call home")] in
  let after := world_after (todo_create request Demo.one_task) in
  ∃ t,
    table after !! 2%Z = Some t ∧ owner t = Demo.bob ∧
    todo_detail (Demo.get_as Demo.alice []) 2 after = (Raise Http404, after).
Proof.
  intros request after.
  destruct (create_then_detail request Demo.bob Demo.one_task eq_refl)
    as (t & Hrow & Hown & _ & Hother).
  - vm_compute. reflexivity.
  - exists t. split; [exact Hrow |]. split; [exact Hown |].
    apply (Hother (Demo.get_as Demo.alice []) Demo.alice eq_refl).
    vm_compute. discriminate.
Defined.



(** X10. A submitted update of a visible row whose due date is text that
    is not empty and does not parse raises the field's error from inside
    [save]: the clock has been read once for [updated_at], and nothing is
    written, so the table, the row with every field of it, the key
    sequence and the queued messages are as before; none of the other
    submitted fields is applied. *)
Theorem update_unparsable_due_date `{Env} (request : Request) (u : User) (pk : Z)
    (w : World) (t : Todo) (raw : string) :
  user request = Some u →
  method request = POST_ →
  table w !! pk = Some t →
  owner t = u →
  POST request !! "due_date" = Some raw →
  raw ≠ "" →
  parse_datetime raw = None →
  let after := world_after (todo_update request pk w) in
  result (todo_update request pk w) = Raise (InvalidDateTime raw) ∧
  table after = table w ∧
  table after !! pk = Some t ∧
  next_pk after = next_pk w ∧
  flash after = flash w ∧
  ticks after = S (ticks w).
Proof.
  intros Hu Hm Hrow Hown Hdue Hne Hp after. subst after.
  rewrite (todo_update_post_unparsable _ _ _ _ _ _ Hu Hm Hrow Hown Hdue Hne Hp).
  cbn. auto 10.
Qed.

Lemma update_unparsable_due_date_witness :
  let request := Demo.post_as Demo.alice [("title", "Buy oat milk");
                                          ("due_date", "next week")] in
  let after := world_after (todo_update request 1 Demo.one_task) in
  result (todo_update request 1 Demo.one_task) = Raise (InvalidDateTime "next week") ∧
  table after = table Demo.one_task ∧
  table after !! 1%Z
  = Some (mkTodo "Buy milk" "" "pending" "medium" None 1000 1001 None Demo.alice) ∧
  next_pk after = next_pk Demo.one_task ∧
  flash after = flash Demo.one_task ∧
  ticks after = S (ticks Demo.one_task).
Proof.
  apply (update_unparsable_due_date
           (Demo.post_as Demo.alice [("title", "Buy oat milk");
                                     ("due_date", "next week")])
           Demo.alice 1 Demo.one_task
           (mkTodo "Buy milk" "" "pending" "medium" None 1000 1001 None Demo.alice)
           "next week").
  - reflexivity.
  - reflexivity.
  - vm_compute. reflexivity.
  - reflexivity.
  - vm_compute. reflexivity.
  - discriminate.
  - reflexivity.
Defined.

(** X11. An update checks nothing it stores: a submitted update of a
    visible row, with no due date, always succeeds and stores the title,
    status and priority exactly as submitted, be the title empty or the
    status or priority outside the vocabulary. *)
Theorem update_stores_as_submitted `{Env} (request : Request) (u : User) (pk : Z)
    (w : World) (t : Todo) (ttl st pr : string) :
  user request = Some u →
  method request = POST_ →
  table w !! pk = Some t →
  owner t = u →
  POST request !! "title" = Some ttl →
  POST request !! "status" = Some st →
  POST request !! "priority" = Some pr →
  POST request !! "due_date" = None ∨ POST request !! "due_date" = Some "" →
  result (todo_update request pk w) = Return (Redirect "todo_detail" (Some pk)) ∧
  ∃ t', table (world_after (todo_update request pk w)) !! pk = Some t' ∧
        title t' = ttl ∧ status t' = st ∧ priority t' = pr.
Proof.
  intros Hu Hm Hrow Hown Httl Hst Hpr Hdue.
  apply truthy_false in Hdue.
  rewrite (todo_update_post_run request u pk w t None Hu Hm Hrow Hown)
    by (rewrite Hdue; reflexivity).
  cbn [result world_after fst snd table].
  split; [reflexivity |].
  eexists. split; [apply lookup_insert_eq |].
  cbn. rewrite Httl, Hst, Hpr. auto.
Qed.

Lemma update_stores_as_submitted_witness :
  let request := Demo.post_as Demo.alice [("title", ""); ("status", "archived");
                                          ("priority", "urgent")] in
  result (todo_update request 1 Demo.one_task)
    = Return (Redirect "todo_detail" (Some 1%Z)) ∧
  ∃ t', table (world_after (todo_update request 1 Demo.one_task)) !! 1%Z = Some t' ∧
        title t' = "" ∧ status t' = "archived" ∧ priority t' = "urgent".
Proof.
  apply (update_stores_as_submitted
           (Demo.post_as Demo.alice [("title", ""); ("status", "archived");
                                     ("priority", "urgent")])
           Demo.alice 1 Demo.one_task
           (mkTodo "Buy milk" "" "pending" "medium" None 1000 1001 None Demo.alice)).
  - reflexivity.
  - reflexivity.
  - vm_compute. reflexivity.
  - reflexivity.
  - vm_compute. reflexivity.
  - vm_compute. reflexivity.
  - vm_compute. reflexivity.
  - left. vm_compute. reflexivity.
Defined.

(** X12. Submitting the same update twice changes nothing more than the
    time of the last write: when the first submission succeeds, so does
    the second, and the row it leaves differs from the row the first left
    in [updated_at] only. *)
Theorem update_twice `{Env} (request : Request) (u : User) (pk : Z)
    (w w1 : World) (r : Response) :
  user request = Some u →
  method request = POST_ →
  todo_update request pk w = (Return r, w1) →
  ∃ t1,
    table w1 !! pk = Some t1 ∧
    result (todo_update request pk w1) = Return r ∧
    table (world_after (todo_update request pk w1))
    = <[pk := set_updated_at (clock (ticks w1)) t1]> (table w1).
Proof.
  intros Hu Hm Hrun.
  destruct (todo_update_post_inv _ _ _ _ _ _ Hu Hm Hrun)
    as (t & t1 & Hrow & Hown & -> & Hw1 & Ht & Hd & Hs & Hp & Hdue & Hc & Hup & Hco & Ho).
  assert (table w1 !! pk = Some t1) as Hrow1 by (rewrite Hw1; apply lookup_insert_eq).
  assert ((if truthy (POST request !! "due_date")
           then Some <$> (POST request !! "due_date" ≫= parse_datetime)
           else Some None) = Some (due_date t1)) as Hconv.
  { rewrite Hdue. destruct (truthy (POST request !! "due_date")) eqn:Htruthy;
      [| reflexivity].
    apply truthy_true in Htruthy as (raw & Hraw & Hne). rewrite Hraw. cbn.
    destruct (parse_datetime raw) as [d |] eqn:Hparse; [reflexivity |].
    rewrite (todo_update_post_unparsable _ _ _ _ _ _ Hu Hm Hrow Hown Hraw Hne Hparse)
      in Hrun.
    discriminate. }
  exists t1. split; [exact Hrow1 |].
  rewrite (todo_update_post_run request u pk w1 t1 (due_date t1) Hu Hm Hrow1
             ltac:(congruence) Hconv).
  cbn [result world_after fst snd table].
  split; [reflexivity |]. f_equal.
  assert (∀ (x y : string) (o : option string),
            x = default y o → default x o = x) as Hdef
    by (intros x y [v |]; cbn; congruence).
  rewrite (Hdef _ _ _ Ht), (Hdef _ _ _ Hd), (Hdef _ _ _ Hs), (Hdef _ _ _ Hp).
  destruct t1. reflexivity.
Qed.

Lemma update_twice_witness :
  let request := Demo.post_as Demo.alice [("status", "in_progress");
                                          ("due_date", "2030-01-01 00:00")] in
  let w1 := world_after (todo_update request 1 Demo.one_task) in
  ∃ t1,
    table w1 !! 1%Z = Some t1 ∧
    result (todo_update request 1 w1) = Return (Redirect "todo_detail" (Some 1%Z)) ∧
    table (world_after (todo_update request 1 w1))
    = <[1%Z := set_updated_at (clock (ticks w1)) t1]> (table w1).
Proof.
  intros request w1.
  apply (update_twice request Demo.alice 1 Demo.one_task w1
           (Redirect "todo_detail" (Some 1%Z)) eq_refl eq_refl).
  vm_compute. reflexivity.
Defined.

(** X13. The row that a completion by its owner writes keeps its due
    date and is not overdue at any reading of the clock: asked in any
    world, [is_overdue] returns false for it and leaves that world
    untouched. *)
Theorem complete_then_not_overdue `{Env} (request : Request) (u : User) (pk : Z)
    (w : World) (t : Todo) :
  user request = Some u →
  table w !! pk = Some t →
  owner t = u →
  ∃ t', table (world_after (todo_complete request pk w)) !! pk = Some t' ∧
        due_date t' = due_date t ∧
        ∀ w2, is_overdue t' w2 = (Return false, w2).
Proof.
  intros Hu Hrow Hown.
  rewrite (todo_complete_run _ _ _ _ _ Hu Hrow Hown). cbn [world_after snd table].
  eexists. split; [apply lookup_insert_eq |]. split; [reflexivity |].
  intros w2. unfold is_overdue. cbn.
  destruct (due_date t); reflexivity.
Qed.

Lemma complete_then_not_overdue_witness :
  ∃ t', table (world_after
                 (todo_complete (Demo.get_as Demo.alice []) 3 Demo.three_tasks))
          !! 3%Z = Some t' ∧
        due_date t' = Some 500%Z ∧
        ∀ w2, is_overdue t' w2 = (Return false, w2).
Proof.
  apply (complete_then_not_overdue (Demo.get_as Demo.alice []) Demo.alice 3
           Demo.three_tasks
           (mkTodo "Pay rent" "" "pending" "medium" (Some 500%Z) 1004 1005 None
                   Demo.alice)).
  - reflexivity.
  - vm_compute. reflexivity.
  - reflexivity.
Defined.

(** ** More on statistics and listing *)

Section Counts.
Context `{Env}.

Lemma is_overdue_true t w w' :
  is_overdue t w = (Return true, w') →
  is_Some (due_date t) ∧ status t ≠ "completed".
Proof.
  unfold is_overdue. destruct (due_date t) as [due |]; [| discriminate].
  destruct (decide (status t = "completed")) as [Hst | Hst].
  - rewrite bool_decide_eq_false_2 by (intros Hne; contradiction). discriminate.
  - intros _. eauto.
Qed.

(** Only rows with a due date and a status other than [completed] can
    count as overdue. *)
Lemma count_overdue_le todos : ∀ w,
  ∃ n w', count_overdue todos w = (Return n, w') ∧
          n ≤ length (filter (λ r, is_Some (due_date r.2) ∧
                                   status r.2 ≠ "completed") todos).
Proof.
  induction todos as [| r rest IH]; intros w; cbn -[filter].
  - do 2 eexists. split; [reflexivity |]. cbn. lia.
  - unfold mbind, M_bind. rewrite filter_cons.
    destruct (is_overdue_frame r.2 w) as (b & w1 & Hrun & _). rewrite Hrun.
    destruct (IH w1) as (n & w' & -> & Hn).
    do 2 eexists. split; [reflexivity |].
    destruct b.
    + rewrite decide_True by (eapply is_overdue_true; exact Hrun). cbn. lia.
    + case_decide; cbn; lia.
Qed.

Lemma length_filter_qs_iter (P : Z * Todo → Prop) `{!∀ r, Decision (P r)} qs :
  length (filter P (qs_iter qs)) = length (filter P qs).
Proof. unfold qs_iter. rewrite merge_sort_Permutation. reflexivity. Qed.

Lemma length_qs_iter qs : length (qs_iter qs) = length qs.
Proof. unfold qs_iter. rewrite merge_sort_Permutation. reflexivity. Qed.

(** Rows that can be overdue and completed rows are different rows. *)
Lemma open_and_completed (rows : list (Z * Todo)) :
  length (filter (λ r, is_Some (due_date r.2) ∧ status r.2 ≠ "completed") rows)
  + qs_count (qs_filter (has_status "completed") rows)
  ≤ length rows.
Proof.
  unfold qs_count, qs_filter, has_status.
  induction rows as [| r rows IH]; [cbn; lia |].
  rewrite !filter_cons.
  destruct (decide (status r.2 = "completed")) as [Hst | Hst].
  - rewrite decide_False by (intros [_ Hne]; contradiction).
    rewrite decide_True by (apply bool_decide_eq_true; exact Hst).
    cbn [length]. lia.
  - rewrite (decide_False (P := bool_decide _ = true))
      by (rewrite bool_decide_eq_true; exact Hst).
    case_decide; cbn [length]; lia.
Qed.

(** The statistics view with its overdue count spelled out. *)
Lemma todo_stats_run_overdue request u w :
  user request = Some u →
  ∃ n w',
    count_overdue (qs_iter (owned_by u w)) w = (Return n, w') ∧
    todo_stats request w
    = (Return (Render "todo/todo_stats.html"
             (StatsContext
                {| total := qs_count (owned_by u w);
                   pending := qs_count (qs_filter (has_status "pending") (owned_by u w));
                   in_progress :=
                     qs_count (qs_filter (has_status "in_progress") (owned_by u w));
                   completed :=
                     qs_count (qs_filter (has_status "completed") (owned_by u w));
                   overdue := n;
                   high_priority :=
                     qs_count (qs_filter (has_priority "high") (owned_by u w)) |})),
       w').
Proof.
  intros Hu. unfold todo_stats, login_required. rewrite Hu.
  unfold todo_stats_view, mbind, M_bind, objects_filter.
  fold (owned_by u w).
  destruct (count_overdue_frame (qs_iter (owned_by u w)) w) as (n & w' & Hcount & _).
  exists n, w'. rewrite Hcount. split; reflexivity.
Qed.

(** The list view for a logged-in user, spelled out. *)
Lemma todo_list_run request u w :
  user request = Some u →
  todo_list request w
  = (Return (Render "todo/todo_list.html"
       (ListContext
          (qs_iter
             (let todos := owned_by u w in
              let todos := if truthy (GET request !! "status")
                           then qs_filter
                                  (has_status (default "" (GET request !! "status")))
                                  todos
                           else todos in
              if truthy (GET request !! "priority")
              then qs_filter
                     (has_priority (default "" (GET request !! "priority"))) todos
              else todos))
          (GET request !! "status") (GET request !! "priority"))), w).
Proof.
  intros Hu. unfold todo_list, login_required. rewrite Hu. reflexivity.
Qed.

End Counts.

(** X14. For a logged-in user the statistics view returns counts in
    which overdue and completed rows together are at most [total], the
    overdue count is at most the number of the user's rows that have a
    due date and are not completed, and [high_priority] is at most
    [total]. *)
Theorem stats_bounds `{Env} (request : Request) (u : User) (w : World) :
  user request = Some u →
  ∃ st,
    result (todo_stats request w)
      = Return (Render "todo/todo_stats.html" (StatsContext st)) ∧
    overdue st ≤ length (filter (λ r, is_Some (due_date r.2) ∧
                                      status r.2 ≠ "completed") (owned_by u w)) ∧
    overdue st + completed st ≤ total st ∧
    high_priority st ≤ total st.
Proof.
  intros Hu.
  destruct (todo_stats_run_overdue request u w Hu) as (n & w' & Hcount & ->).
  eexists. split; [reflexivity |]. cbn [overdue completed total high_priority].
  destruct (count_overdue_le (qs_iter (owned_by u w)) w) as (n' & w'' & Hcount' & Hn).
  rewrite Hcount in Hcount'. injection Hcount' as <- <-.
  rewrite length_filter_qs_iter in Hn.
  pose proof (open_and_completed (owned_by u w)) as Hsplit.
  split; [exact Hn |]. unfold qs_count in *. split; [lia |].
  unfold qs_filter. apply length_filter.
Qed.

Lemma stats_bounds_witness :
  ∃ st,
    result (todo_stats (Demo.get_as Demo.alice []) Demo.three_tasks)
      = Return (Render "todo/todo_stats.html" (StatsContext st)) ∧
    overdue st + completed st ≤ total st ∧ high_priority st ≤ total st.
Proof.
  destruct (stats_bounds (Demo.get_as Demo.alice []) Demo.alice Demo.three_tasks
              eq_refl) as (st & Hres & _ & Hsum & Hhigh).
  exists st. auto.
Defined.

(** X15. The statistics agree with the list: for the same user and
    world, [total] is the length of the unfiltered list, each status
    count is the length of the list filtered by that status, and
    [high_priority] is the length of the list filtered by priority
    [high]. *)
Theorem stats_agree_with_list `{Env} (request_s request_l : Request) (u : User)
    (w : World) (st : Stats) (todos : list (Z * Todo)) (sf pf : option string) :
  user request_s = Some u →
  user request_l = Some u →
  result (todo_stats request_s w)
    = Return (Render "todo/todo_stats.html" (StatsContext st)) →
  result (todo_list request_l w)
    = Return (Render "todo/todo_list.html" (ListContext todos sf pf)) →
  (truthy (GET request_l !! "priority") = false →
   (truthy (GET request_l !! "status") = false → length todos = total st) ∧
   (GET request_l !! "status" = Some "pending" → length todos = pending st) ∧
   (GET request_l !! "status" = Some "in_progress" → length todos = in_progress st) ∧
   (GET request_l !! "status" = Some "completed" → length todos = completed st)) ∧
  (truthy (GET request_l !! "status") = false →
   GET request_l !! "priority" = Some "high" → length todos = high_priority st).
Proof.
  intros Hus Hul Hstats Hlist.
  destruct (todo_stats_run_overdue request_s u w Hus) as (n & w' & _ & Hrun).
  rewrite Hrun in Hstats. cbn in Hstats. injection Hstats as <-.
  rewrite (todo_list_run request_l u w Hul) in Hlist. cbn [result fst] in Hlist.
  injection Hlist as <- _ _.
  rewrite length_qs_iter. cbn [total pending in_progress completed high_priority].
  split.
  - intros ->. repeat split.
    + intros ->. reflexivity.
    + intros ->. reflexivity.
    + intros ->. reflexivity.
    + intros ->. reflexivity.
  - intros -> ->. reflexivity.
Qed.

Lemma stats_agree_with_list_witness :
  ∃ st todos,
    result (todo_stats (Demo.get_as Demo.alice []) Demo.three_tasks)
      = Return (Render "todo/todo_stats.html" (StatsContext st)) ∧
    result (todo_list (Demo.get_as Demo.alice [("status", "pending")]) Demo.three_tasks)
      = Return (Render "todo/todo_list.html" (ListContext todos (Some "pending") None)) ∧
    length todos = pending st.
Proof.
  do 2 eexists. split; [vm_compute; reflexivity |]. split; [vm_compute; reflexivity |].
  eapply (stats_agree_with_list (Demo.get_as Demo.alice [])
            (Demo.get_as Demo.alice [("status", "pending")]) Demo.alice
            Demo.three_tasks).
  - reflexivity.
  - reflexivity.
  - vm_compute. reflexivity.
  - vm_compute. reflexivity.
  - reflexivity.
  - vm_compute. reflexivity.
Defined.

(** ** Routing *)

Section Routing.
Import Urls.

Lemma append_cons c (s t : string) : String c s +:+ t = String c (s +:+ t).
Proof. reflexivity. Qed.

Lemma append_empty_r (s : string) : s +:+ "" = s.
Proof.
  induction s as [| c s IH]; [reflexivity |]. rewrite append_cons, IH. reflexivity.
Qed.

Lemma strip_prefix_Some p : ∀ s r, strip_prefix p s = Some r → s = p +:+ r.
Proof.
  induction p as [| a p IH]; intros s r; cbn.
  - intros [= ->]. reflexivity.
  - destruct s as [| b s]; [discriminate |].
    case_decide as Hab; [| discriminate].
    intros Hrest. apply IH in Hrest. subst. reflexivity.
Qed.

Lemma strip_prefix_app p s : strip_prefix p (p +:+ s) = Some s.
Proof.
  induction p as [| a p IH]; [reflexivity |].
  rewrite append_cons. cbn. rewrite decide_True by reflexivity. exact IH.
Qed.

(** A literal at the end of a route matches exactly itself. *)
Lemma match_last_literal text p :
  match_route [Lit text] p = if decide (p = text) then Some [] else None.
Proof.
  cbn. destruct (strip_prefix text p) as [r |] eqn:Hstrip.
  - apply strip_prefix_Some in Hstrip. subst p.
    destruct (decide (r = "")) as [-> | Hr].
    + rewrite decide_True by apply append_empty_r. reflexivity.
    + rewrite decide_False; [reflexivity |].
      intros Heq. apply Hr.
      rewrite <- (append_empty_r text) in Heq at 2.
      exact (String.app_inj text _ _ Heq).
  - rewrite decide_False; [reflexivity |].
    intros ->. rewrite <- (append_empty_r text) in Hstrip at 2.
    rewrite strip_prefix_app in Hstrip. discriminate.
Qed.

(** The digits of a number, followed by something that is no digit, are
    split off whole. *)
Lemma span_digits_decimal d c rest :
  is_digit c = false →
  span_digits (NilEmpty.string_of_uint d +:+ String c rest)
  = (NilEmpty.string_of_uint d, String c rest).
Proof.
  intros Hc. induction d as [| d IH | d IH | d IH | d IH | d IH | d IH | d IH
                            | d IH | d IH | d IH];
    cbn [NilEmpty.string_of_uint];
    [change (span_digits (EmptyString +:+ String c rest)) with
       (if is_digit c
        then (String c (span_digits rest).1, (span_digits rest).2)
        else (EmptyString, String c rest));
     rewrite Hc; reflexivity | ..];
    (rewrite append_cons; cbn [span_digits];
     change (is_digit _) with true; cbn iota; rewrite IH; reflexivity).
Qed.

Lemma str_of_int_not_empty n : str_of_int n ≠ "".
Proof.
  unfold str_of_int. destruct (Z.to_N n) as [| q]; [discriminate |].
  cbn. pose proof (DecimalPos.Unsigned.to_uint_nonnil q) as Hnil.
  destruct (Pos.to_uint q); [contradiction | discriminate ..].
Qed.

Lemma int_of_str (n : Z) : (0 ≤ n)%Z → int_of_digits (str_of_int n) = Some n.
Proof.
  intros Hn. unfold int_of_digits, str_of_int.
  rewrite NilEmpty.usu. cbn.
  rewrite DecimalN.Unsigned.of_to, Z2N.id by exact Hn. reflexivity.
Qed.

(** The routes with a key: the path built for a key matches the route it
    was built for, and no route with another ending. *)
Lemma match_keyed tail tail' pk :
  (0 ≤ pk)%Z →
  match_route [Lit "todo/"; IntPk; Lit ("/" +:+ tail')]
              ("todo/" +:+ str_of_int pk +:+ "/" +:+ tail)
  = if decide (tail = tail') then Some [pk] else None.
Proof.
  intros Hpk.
  change (match_route [Lit "todo/"; IntPk; Lit ("/" +:+ tail')]
            ("todo/" +:+ str_of_int pk +:+ "/" +:+ tail))
    with (match_route [IntPk; Lit ("/" +:+ tail')]
            (str_of_int pk +:+ String (Ascii.ascii_of_nat 47) tail)).
  cbn [match_route].
  assert (span_digits (str_of_int pk +:+ String (Ascii.ascii_of_nat 47) tail)
          = (str_of_int pk, String (Ascii.ascii_of_nat 47) tail)) as ->
    by (apply span_digits_decimal; reflexivity).
  cbn [fst snd].
  rewrite decide_False by apply str_of_int_not_empty.
  rewrite int_of_str by exact Hpk.
  fold (match_route [Lit ("/" +:+ tail')] (String (Ascii.ascii_of_nat 47) tail)).
  rewrite match_last_literal.
  destruct (decide (tail = tail')) as [-> | Hne].
  - rewrite decide_True by reflexivity. reflexivity.
  - rewrite decide_False; [reflexivity |].
    intros Heq. apply Hne.
    change (String (Ascii.ascii_of_nat 47) tail) with ("/" +:+ tail) in Heq.
    exact (String.app_inj "/" _ _ Heq).
Qed.

(** What a match of a route with a key says about the path. *)
Lemma match_keyed_inv tail p args :
  match_route [Lit "todo/"; IntPk; Lit tail] p = Some args →
  ∃ p0 pk, strip_prefix "todo/" p = Some p0 ∧ (span_digits p0).2 = tail ∧
           args = [pk] ∧ (0 ≤ pk)%Z.
Proof.
  cbn [match_route].
  destruct (strip_prefix "todo/" p) as [p0 |]; [| discriminate].
  case_decide; [discriminate |].
  unfold int_of_digits.
  destruct (NilEmpty.uint_of_string (span_digits p0).1) as [d |]; [| discriminate].
  cbn [fmap option_fmap option_map].
  destruct (strip_prefix tail (span_digits p0).2) as [r |] eqn:Hstrip; [| discriminate].
  case_decide as Hr; [| discriminate].
  intros [= <-]. subst r.
  apply strip_prefix_Some in Hstrip. rewrite append_empty_r in Hstrip.
  exists p0, (Z.of_N (N.of_uint d)). repeat split; [congruence | lia].
Qed.

Lemma match_literal_inv text p args :
  match_route [Lit text] p = Some args → p = text ∧ args = [].
Proof.
  rewrite match_last_literal. case_decide; [| discriminate].
  intros [= <-]. auto.
Qed.

Lemma match_root_inv p args : match_route [] p = Some args → p = "" ∧ args = [].
Proof. cbn. case_decide; [| discriminate]. intros [= <-]. auto. Qed.

Lemma first_match_Some patterns p v args :
  first_match patterns p = Some (v, args) →
  ∃ pat, pat ∈ patterns ∧ view pat = v ∧ match_route (route pat) p = Some args.
Proof.
  induction patterns as [| pat rest IH]; cbn; [discriminate |].
  destruct (match_route (route pat) p) as [args' |] eqn:Hm.
  - intros [= <- <-]. exists pat. split; [left |]. auto.
  - intros Hrest. destruct (IH Hrest) as (pat' & Hin & Hv & Hm').
    exists pat'. split; [right; exact Hin | auto].
Qed.

Lemma first_match_complete patterns p pat args :
  pat ∈ patterns →
  match_route (route pat) p = Some args →
  ∃ pat' args', first_match patterns p = Some (view pat', args') ∧
                pat' ∈ patterns ∧ match_route (route pat') p = Some args'.
Proof.
  induction patterns as [| pat0 rest IH]; intros Hin Hm; [inversion Hin |].
  cbn. destruct (match_route (route pat0) p) as [args0 |] eqn:Hm0.
  - exists pat0, args0. split; [reflexivity |]. split; [left | exact Hm0].
  - apply elem_of_cons in Hin as [-> | Hin]; [congruence |].
    destruct (IH Hin Hm) as (pat' & args' & Hfirst & Hin' & Hm').
    exists pat', args'. split; [exact Hfirst |]. split; [right; exact Hin' | exact Hm'].
Qed.

(** What a match says about the path, route by route. *)
Ltac route_facts Hm :=
  cbn [route] in Hm;
  first
    [ apply match_root_inv in Hm as [? ?]
    | apply match_literal_inv in Hm as [? ?]
    | apply match_keyed_inv in Hm as (? & ? & ? & ? & ? & ?) ].

Ltac each_pattern Hin :=
  unfold urlpatterns in Hin;
  repeat (apply elem_of_cons in Hin as [-> | Hin]);
  [.. | inversion Hin].

(** The path built for a pattern matches the route of that pattern. *)
Lemma reverse_route_matches pat args p :
  pat ∈ urlpatterns →
  reverse_route (route pat) args = Some p →
  match_route (route pat) p = Some args.
Proof.
  intros Hin Hrev. each_pattern Hin; cbn [route] in *.
  - destruct args; [| discriminate]. injection Hrev as <-. reflexivity.
  - destruct args as [| pk [| ? ?]]; cbn in Hrev; try discriminate;
      try (case_decide; discriminate).
    case_decide as Hpk; [| discriminate]. injection Hrev as <-.
    pose proof (match_keyed "" "" pk Hpk) as Hm.
    rewrite decide_True in Hm by reflexivity. exact Hm.
  - destruct args; [| discriminate]. injection Hrev as <-. reflexivity.
  - destruct args as [| pk [| ? ?]]; cbn in Hrev; try discriminate;
      try (case_decide; discriminate).
    case_decide as Hpk; [| discriminate]. injection Hrev as <-.
    pose proof (match_keyed "update/" "update/" pk Hpk) as Hm.
    rewrite decide_True in Hm by reflexivity. exact Hm.
  - destruct args as [| pk [| ? ?]]; cbn in Hrev; try discriminate;
      try (case_decide; discriminate).
    case_decide as Hpk; [| discriminate]. injection Hrev as <-.
    pose proof (match_keyed "delete/" "delete/" pk Hpk) as Hm.
    rewrite decide_True in Hm by reflexivity. exact Hm.
  - destruct args as [| pk [| ? ?]]; cbn in Hrev; try discriminate;
      try (case_decide; discriminate).
    case_decide as Hpk; [| discriminate]. injection Hrev as <-.
    pose proof (match_keyed "complete/" "complete/" pk Hpk) as Hm.
    rewrite decide_True in Hm by reflexivity. exact Hm.
  - destruct args; [| discriminate]. injection Hrev as <-. reflexivity.
Qed.

(** No path is matched by two patterns. *)
Lemma patterns_disjoint pat1 pat2 p args1 args2 :
  pat1 ∈ urlpatterns → pat2 ∈ urlpatterns →
  match_route (route pat1) p = Some args1 →
  match_route (route pat2) p = Some args2 →
  pat1 = pat2.
Proof.
  intros Hin1 Hin2 Hm1 Hm2.
  each_pattern Hin1; each_pattern Hin2; try reflexivity; exfalso;
    route_facts Hm1; route_facts Hm2; subst;
    repeat match goal with
           | Hs : strip_prefix _ _ = Some _ |- _ => cbn in Hs
           end;
    try discriminate; congruence.
Qed.

End Routing.

(** X16. Resolving the path that [reverse] builds for a pattern gives
    back the view of that pattern and the arguments the path was built
    from. *)
Theorem reverse_then_resolve (pat : Urls.UrlPattern) (args : list Z) (p : string) :
  pat ∈ Urls.urlpatterns →
  Urls.reverse (Urls.name pat) args = Some p →
  Urls.resolve p = Some (Urls.view pat, args).
Proof.
  intros Hin Hrev.
  assert (Urls.reverse_route (Urls.route pat) args = Some p) as Hroute.
  { revert Hrev. clear -Hin. unfold Urls.urlpatterns in Hin.
    repeat (apply elem_of_cons in Hin as [-> | Hin]); [.. | inversion Hin];
      intros Hrev; exact Hrev. }
  pose proof (reverse_route_matches pat args p Hin Hroute) as Hm.
  destruct (first_match_complete Urls.urlpatterns p pat args Hin Hm)
    as (pat' & args' & Hfirst & Hin' & Hm').
  assert (pat' = pat) as -> by exact (patterns_disjoint _ _ _ _ _ Hin' Hin Hm' Hm).
  unfold Urls.resolve. rewrite Hfirst. congruence.
Qed.

Lemma reverse_then_resolve_witness :
  Urls.resolve "todo/42/update/" = Some (Urls.ViewUpdate, [42%Z]).
Proof.
  apply (reverse_then_resolve
           (Urls.path [Urls.Lit "todo/"; Urls.IntPk; Urls.Lit "/update/"]
                      Urls.ViewUpdate "todo_update") [42%Z] "todo/42/update/").
  - unfold Urls.urlpatterns. do 3 right. left.
  - vm_compute. reflexivity.
Defined.

(** X17. The patterns do not overlap: a path is matched by at most one of
    them, so the order of [urlpatterns] does not matter, and what
    [resolve] returns is the view of the one pattern that matches. *)
Theorem patterns_do_not_overlap (pat1 pat2 : Urls.UrlPattern) (p : string)
    (args1 args2 : list Z) :
  pat1 ∈ Urls.urlpatterns →
  pat2 ∈ Urls.urlpatterns →
  Urls.match_route (Urls.route pat1) p = Some args1 →
  Urls.match_route (Urls.route pat2) p = Some args2 →
  pat1 = pat2 ∧ Urls.resolve p = Some (Urls.view pat1, args1).
Proof.
  intros Hin1 Hin2 Hm1 Hm2.
  split; [exact (patterns_disjoint _ _ _ _ _ Hin1 Hin2 Hm1 Hm2) |].
  destruct (first_match_complete Urls.urlpatterns p pat1 args1 Hin1 Hm1)
    as (pat' & args' & Hfirst & Hin' & Hm').
  assert (pat' = pat1) as -> by exact (patterns_disjoint _ _ _ _ _ Hin' Hin1 Hm' Hm1).
  unfold Urls.resolve. rewrite Hfirst. congruence.
Qed.

Lemma patterns_do_not_overlap_witness :
  Urls.resolve "todo/007/" = Some (Urls.ViewDetail, [7%Z]).
Proof.
  apply (patterns_do_not_overlap
           (Urls.path [Urls.Lit "todo/"; Urls.IntPk; Urls.Lit "/"]
                      Urls.ViewDetail "todo_detail")
           (Urls.path [Urls.Lit "todo/"; Urls.IntPk; Urls.Lit "/"]
                      Urls.ViewDetail "todo_detail")
           "todo/007/" [7%Z] [7%Z]).
  - unfold Urls.urlpatterns. right. left.
  - unfold Urls.urlpatterns. right. left.
  - vm_compute. reflexivity.
  - vm_compute. reflexivity.
Defined.

(** X18. Whatever the path, the dispatcher either serves one of the
    calls, with the request it was given and a key that is not negative,
    or, when no pattern matches, raises [Http404] and leaves the world as
    it was. *)
Theorem dispatch_serves_a_call `{Env} (request : Request) (p : string) (w : World) :
  (∃ c, call_request c = request ∧
        (∀ pk, call_key c = Some pk → (0 ≤ pk)%Z) ∧
        Urls.dispatch request p w = serve c w)
  ∨ (Urls.resolve p = None ∧
     Urls.dispatch request p w = (Raise Http404, w)).
Proof.
  unfold Urls.dispatch.
  destruct (Urls.resolve p) as [[v args] |] eqn:Hres; [| right; auto].
  left. unfold Urls.resolve in Hres.
  apply first_match_Some in Hres as (pat & Hin & <- & Hm).
  unfold Urls.urlpatterns in Hin.
  repeat (apply elem_of_cons in Hin as [-> | Hin]); [.. | inversion Hin];
    cbn [Urls.route Urls.view] in *.
  - apply match_root_inv in Hm as [_ ->].
    exists (CallList request). repeat split. intros pk [=].
  - apply match_keyed_inv in Hm as (p0 & pk & _ & _ & -> & Hpk).
    exists (CallDetail request pk). repeat split. intros pk' [= <-]. exact Hpk.
  - apply match_literal_inv in Hm as [_ ->].
    exists (CallCreate request). repeat split. intros pk [=].
  - apply match_keyed_inv in Hm as (p0 & pk & _ & _ & -> & Hpk).
    exists (CallUpdate request pk). repeat split. intros pk' [= <-]. exact Hpk.
  - apply match_keyed_inv in Hm as (p0 & pk & _ & _ & -> & Hpk).
    exists (CallDelete request pk). repeat split. intros pk' [= <-]. exact Hpk.
  - apply match_keyed_inv in Hm as (p0 & pk & _ & _ & -> & Hpk).
    exists (CallComplete request pk). repeat split. intros pk' [= <-]. exact Hpk.
  - apply match_literal_inv in Hm as [_ ->].
    exists (CallStats request). repeat split. intros pk [=].
Qed.

(** ** Printing *)

(** X19. A row stored by the create view prints as its title followed by
    [(Pending)], whatever the form carried; once its owner has completed
    it, it prints with [(Completed)]. *)
Theorem created_row_prints_pending `{Env} (request : Request) (w : World) :
  result (todo_create request w) = Return (Redirect "todo_list" None) →
  let w1 := world_after (todo_create request w) in
  ∃ t, table w1 !! next_pk w = Some t ∧
       str t = title t +:+ " (Pending)" ∧
       ∀ r, user r = user request →
            ∃ t', table (world_after (todo_complete r (next_pk w) w1)) !! next_pk w
                  = Some t' ∧
                  str t' = title t +:+ " (Completed)".
Proof.
  intros Hres w1. subst w1.
  destruct (todo_create_cases request w)
    as [[_ Hno] | [[text Hrun] | (u & ttl & due & Hu & _ & _ & _ & _ & Hrun)]].
  - contradiction.
  - rewrite Hrun in Hres. discriminate.
  - cbn zeta in Hrun. rewrite Hrun. cbn [world_after snd].
    eexists. split; [cbn; apply lookup_insert_eq |]. split; [reflexivity |].
    intros r Hr. rewrite Hu in Hr.
    erewrite todo_complete_run;
      [| exact Hr | cbn; apply lookup_insert_eq | reflexivity].
    cbn [world_after snd table].
    eexists. split; [apply lookup_insert_eq | reflexivity].
Qed.

Lemma created_row_prints_pending_witness :
  let request := Demo.post_as Demo.bob [("title", "Call home");
                                        ("status", "completed")] in
  ∃ t, table (world_after (todo_create request Demo.one_task)) !! 2%Z = Some t ∧
       str t = "Call home (Pending)".
Proof.
  intros request.
  destruct (created_row_prints_pending request Demo.one_task)
    as (t & Hrow & Hstr & _).
  - vm_compute. reflexivity.
  - exists t. split; [exact Hrow |]. rewrite Hstr.
    vm_compute in Hrow. injection Hrow as <-. reflexivity.
Defined.
